(** * Shallow embedding of the SVSM backup protocol

    Sources embedded:
    - kernel/src/protocols/backup.rs : the snapshot controller, frame copy,
      restore primitives and the request dispatcher;
    - kernel/src/mm/ptguards.rs : [PerCPUPageMappingGuard::create] and [create_4k];
    - kernel/src/mm/set.rs : the address-set registry over a [BTreeSet];
    - kernel/src/platform/snp.rs : [get_page_encryption_masks];
    - src/stage2.rs : the page-mapping and validation loops of the stage-2
      loader and [stage2_main].

    Modelling choices.
    - [PhysAddr] is a [Z]; [PhysAddr + usize] and [PhysAddr - PhysAddr]
      wrap modulo 2^64 ([pa_add], [pa_sub]).
    - The per-CPU window handed out by a mapping guard is modelled as the
      identity onto the physical range: [read_u8 (virt + i)] reads the guest
      byte at [paddr + i] and a store through the window writes guest memory.
    - The external collaborators (virtual-range allocation and page-table
      mapping, the fallible byte reader, the writable-physical-address
      oracle, the RMP primitive) are oracles of an environment [Env].
    - The page allocator is a count of free frames.
    - The process-wide statics (the two address sets, BACKUP_PAGES,
      ZERO_PAGES and BACKUP_CREATED) are fields of an explicit state [St],
      threaded through a small state/error monad with a panic outcome for
      failed assertions.
    - A ghost event log records every frame-copy invocation, every mapping
      created and every RMP write-protect. *)

From Stdlib Require Import ZArith List Bool Lia Sorting.Sorted.
Import ListNotations.
Open Scope Z_scope.

(** ** Constants (crate::types, crate::mm::virtualrange) *)

Definition PAGE_SIZE : Z := 4096.
Definition PAGE_SIZE_2M : Z := 2097152.
Definition VIRT_ALIGN_4K : Z := 0.
Definition VIRT_ALIGN_2M : Z := 9.

Definition SVSM_FULL_BACKUP : Z := 0.
Definition SVSM_RESTORE : Z := 1.
Definition SVSM_ENABLE_COPY_ON_WRITE : Z := 2.

(** ** Addresses *)

Definition WORD : Z := 2 ^ 64.

(** [PhysAddr + usize] *)
Definition pa_add (p n : Z) : Z := (p + n) mod WORD.
(** [PhysAddr - PhysAddr] (a [usize]) *)
Definition pa_sub (e s : Z) : Z := (e - s) mod WORD.

Inductive PageSize := Regular | Huge.

Definition PageSize_eqb (a b : PageSize) : bool :=
  match a, b with
  | Regular, Regular | Huge, Huge => true
  | _, _ => false
  end.

(** ** Errors (crate::error, crate::protocols::errors) *)

Inductive SvsmError := Mem | Mapping | InvalidAddress | Rmp.

Inductive SvsmResultCode := UNSUPPORTED_CALL | INVALID_PARAMETER.

Inductive SvsmReqError :=
| RequestError (c : SvsmResultCode)
| FatalError (e : SvsmError).

Definition unsupported_call : SvsmReqError := RequestError UNSUPPORTED_CALL.

(** ** State *)

Record MemPage4K := { phys_addr : Z; data : list Z }.

Inductive Event :=
| EvCopy (paddr : Z)                 (* an invocation of backup_4k_page *)
| EvMap (start end_ : Z) (huge : bool) (* a mapping guard created *)
| EvRmp (vaddr : Z) (size : PageSize). (* rmp_set_read_only performed *)

Record St := {
  mem : Z -> Z;                          (* guest physical memory, bytewise *)
  free_frames : nat;                     (* page allocator *)
  pages_to_backup : list (Z * PageSize); (* PAGES_TO_BACKUP's BTreeSet *)
  pages_to_clear : list (Z * PageSize);  (* PAGES_TO_CLEAR's BTreeSet *)
  backup_pages : list MemPage4K;         (* BACKUP_PAGES *)
  zero_pages : list Z;                   (* ZERO_PAGES *)
  backup_created : bool;                 (* BACKUP_CREATED *)
  events : list Event
}.

Definition set_mem (m : Z -> Z) (s : St) : St :=
  {| mem := m; free_frames := free_frames s; pages_to_backup := pages_to_backup s;
     pages_to_clear := pages_to_clear s; backup_pages := backup_pages s;
     zero_pages := zero_pages s; backup_created := backup_created s;
     events := events s |}.

Definition set_free_frames (n : nat) (s : St) : St :=
  {| mem := mem s; free_frames := n; pages_to_backup := pages_to_backup s;
     pages_to_clear := pages_to_clear s; backup_pages := backup_pages s;
     zero_pages := zero_pages s; backup_created := backup_created s;
     events := events s |}.

Definition set_backup_pages (l : list MemPage4K) (s : St) : St :=
  {| mem := mem s; free_frames := free_frames s; pages_to_backup := pages_to_backup s;
     pages_to_clear := pages_to_clear s; backup_pages := l;
     zero_pages := zero_pages s; backup_created := backup_created s;
     events := events s |}.

Definition set_zero_pages (l : list Z) (s : St) : St :=
  {| mem := mem s; free_frames := free_frames s; pages_to_backup := pages_to_backup s;
     pages_to_clear := pages_to_clear s; backup_pages := backup_pages s;
     zero_pages := l; backup_created := backup_created s;
     events := events s |}.

Definition set_backup_created (b : bool) (s : St) : St :=
  {| mem := mem s; free_frames := free_frames s; pages_to_backup := pages_to_backup s;
     pages_to_clear := pages_to_clear s; backup_pages := backup_pages s;
     zero_pages := zero_pages s; backup_created := b;
     events := events s |}.

Definition add_event (e : Event) (s : St) : St :=
  {| mem := mem s; free_frames := free_frames s; pages_to_backup := pages_to_backup s;
     pages_to_clear := pages_to_clear s; backup_pages := backup_pages s;
     zero_pages := zero_pages s; backup_created := backup_created s;
     events := events s ++ [e] |}.

(** ** Environment: the external collaborators *)

Record Env := {
  (* virt_alloc_range_{2m,4k} or map_region_{2m,4k} fails for this range *)
  map_fails : bool -> Z -> Z -> bool;
  (* read_u8 faults on this byte *)
  read_fault : Z -> bool;
  writable_phys_addr : Z -> bool;
  (* rmp_set_read_only fails *)
  rmp_fails : Z -> PageSize -> bool
}.

(** ** A state/error monad with a panic outcome *)

Inductive outcome (E A : Type) :=
| Ok (a : A)
| Err (e : E)
| Panic.
Arguments Ok {E A} a.
Arguments Err {E A} e.
Arguments Panic {E A}.

Definition M (E A : Type) := St -> outcome E A * St.

Definition ret {E A} (a : A) : M E A := fun s => (Ok a, s).

Definition bind {E A B} (m : M E A) (k : A -> M E B) : M E B :=
  fun s =>
    match m s with
    | (Ok a, s') => k a s'
    | (Err e, s') => (Err e, s')
    | (Panic, s') => (Panic, s')
    end.

Definition fail {E A} (e : E) : M E A := fun s => (Err e, s).
Definition panic {E A} : M E A := fun s => (Panic, s).
Definition get {E} : M E St := fun s => (Ok s, s).
Definition modify {E} (f : St -> St) : M E unit := fun s => (Ok tt, f s).

(** The [?] operator across error types, through [From]. *)
Definition map_err {E F A} (f : E -> F) (m : M E A) : M F A :=
  fun s =>
    match m s with
    | (Ok a, s') => (Ok a, s')
    | (Err e, s') => (Err (f e), s')
    | (Panic, s') => (Panic, s')
    end.

Notation "x <- m ;; k" := (bind m (fun x => k))
  (at level 61, m at next level, right associativity).

(** ** kernel/src/mm/ptguards.rs *)

Record PerCPUPageMappingGuard := { mapping : Z; huge : bool }.

Definition virt_addr (g : PerCPUPageMappingGuard) : Z := mapping g.

Definition align_mask (alignment : Z) : Z := Z.shiftl PAGE_SIZE alignment - 1.

Definition create (env : Env) (paddr_start paddr_end alignment : Z)
  : M SvsmError PerCPUPageMappingGuard :=
  let mask := align_mask alignment in
  let size := pa_sub paddr_end paddr_start in
  if negb (Z.land size mask =? 0) then panic else
  if negb (Z.land paddr_start mask =? 0) then panic else
  if negb (Z.land paddr_end mask =? 0) then panic else
  let huge := (Z.land paddr_start (PAGE_SIZE_2M - 1) =? 0)
              && (Z.land paddr_end (PAGE_SIZE_2M - 1) =? 0) in
  if map_fails env huge paddr_start paddr_end then fail Mapping else
  _ <- modify (add_event (EvMap paddr_start paddr_end huge)) ;;
  ret {| mapping := paddr_start; huge := huge |}.

(** [PerCPUPageMappingGuard::create_4k] *)
Definition create_4k (env : Env) (paddr : Z) : M SvsmError PerCPUPageMappingGuard :=
  create env paddr (pa_add paddr PAGE_SIZE) 0.

(** ** Collaborators of the frame copy *)

(** [PageBox::try_new_uninit] *)
Definition try_new_uninit : M SvsmError unit :=
  fun s =>
    match free_frames s with
    | O => (Err Mem, s)
    | S n => (Ok tt, set_free_frames n s)
    end.

(** Dropping a [PageBox] rebuilt with [PageBox::from_raw]. *)
Definition free_frame : M SvsmError unit :=
  modify (fun s => set_free_frames (S (free_frames s)) s).

(** The copy loop of [backup_4k_page]:
    [for i in 0..PAGE_SIZE { let byte = read_u8(virt_addr+i)?;
       if byte != 0 { zero = false; } ref_page[i] = byte; }].
    [acc] holds the bytes written so far, most recent first. *)
Fixpoint copy_loop (env : Env) (m : Z -> Z) (virt : Z) (n : nat) (i : Z)
  (zero : bool) (acc : list Z) : outcome SvsmError (bool * list Z) :=
  match n with
  | O => Ok (zero, rev_append acc [])
  | S n' =>
      if read_fault env (virt + i) then Err InvalidAddress else
      let byte := m (virt + i) in
      let zero' := if negb (byte =? 0) then false else zero in
      copy_loop env m virt n' (i + 1) zero' (byte :: acc)
  end.

Definition lift_outcome {A} (o : outcome SvsmError A) : M SvsmError A :=
  fun s => (o, s).

(** ** kernel/src/protocols/backup.rs *)

Definition backup_4k_page (env : Env) (paddr : Z) : M SvsmError bool :=
  _ <- modify (add_event (EvCopy paddr)) ;;
  guard <- create env paddr (pa_add paddr PAGE_SIZE) VIRT_ALIGN_4K ;;
  let virt := virt_addr guard in
  _ <- try_new_uninit ;;
  s <- get ;;
  r <- lift_outcome (copy_loop env (mem s) virt (Z.to_nat PAGE_SIZE) 0 true []) ;;
  let '(zero, ref_page) := r in
  if zero then
    _ <- free_frame ;;
    _ <- modify (fun s => set_zero_pages (zero_pages s ++ [paddr]) s) ;;
    ret false
  else
    _ <- modify (fun s => set_backup_pages
                            (backup_pages s ++ [{| phys_addr := paddr; data := ref_page |}]) s) ;;
    ret true.

(** The huge-page loop of [backup_page]:
    [let mut start_addr = paddr; for i in 0..(PAGE_SIZE_2M/PAGE_SIZE) {
       let success = backup_4k_page(start_addr)?;
       if success { backup_size += PAGE_SIZE; }
       start_addr = paddr + i * PAGE_SIZE; }] *)
Fixpoint huge_loop (env : Env) (paddr : Z) (n : nat) (i start_addr backup_size : Z)
  : M SvsmError Z :=
  match n with
  | O => ret backup_size
  | S n' =>
      success <- backup_4k_page env start_addr ;;
      let backup_size' := if success then backup_size + PAGE_SIZE else backup_size in
      let start_addr' := pa_add paddr (i * PAGE_SIZE) in
      huge_loop env paddr n' (i + 1) start_addr' backup_size'
  end.

Definition backup_page (env : Env) (paddr : Z) (size : PageSize) : M SvsmError (Z * Z) :=
  match size with
  | Regular =>
      success <- backup_4k_page env paddr ;;
      if success then ret (PAGE_SIZE, 0) else ret (0, PAGE_SIZE)
  | Huge =>
      backup_size <- huge_loop env paddr (Z.to_nat (PAGE_SIZE_2M / PAGE_SIZE)) 0 paddr 0 ;;
      ret (backup_size, PAGE_SIZE_2M - backup_size)
  end.

(** ** kernel/src/mm/set.rs over [BTreeSet<(PhysAddr, PageSize)>]

    The [BTreeSet] is its ascending sequence of elements, ordered
    lexicographically on the pair ([PageSize] derives [Ord] in declaration
    order: [Regular < Huge]). *)

Definition PageSize_ltb (a b : PageSize) : bool :=
  match a, b with
  | Regular, Huge => true
  | _, _ => false
  end.

Definition pair_eqb (x y : Z * PageSize) : bool :=
  (fst x =? fst y) && PageSize_eqb (snd x) (snd y).

Definition pair_ltb (x y : Z * PageSize) : bool :=
  (fst x <? fst y) || ((fst x =? fst y) && PageSize_ltb (snd x) (snd y)).

(** [BTreeSet::insert] *)
Fixpoint btree_insert (x : Z * PageSize) (t : list (Z * PageSize)) : list (Z * PageSize) :=
  match t with
  | [] => [x]
  | y :: t' =>
      if pair_ltb x y then x :: t
      else if pair_eqb x y then t
      else y :: btree_insert x t'
  end.

(** [BTreeSet::remove]: whether it was present, and the new set. *)
Fixpoint btree_remove (x : Z * PageSize) (t : list (Z * PageSize))
  : bool * list (Z * PageSize) :=
  match t with
  | [] => (false, [])
  | y :: t' =>
      if pair_eqb x y then (true, t')
      else let '(b, t'') := btree_remove x t' in (b, y :: t'')
  end.

Definition set_new : list (Z * PageSize) := [].

Definition insert_addr (t : list (Z * PageSize)) (value : Z) (size : PageSize) :=
  btree_insert (value, size) t.

Definition remove_addr (t : list (Z * PageSize)) (value : Z) (size : PageSize) :=
  btree_remove (value, size) t.

Definition contains_addr (t : list (Z * PageSize)) (value : Z) (size : PageSize) : bool :=
  existsb (pair_eqb (value, size)) t.

(** [iter_addresses]: clone under the lock, then [into_iter] (ascending). *)
Definition iter_addresses (t : list (Z * PageSize)) : list (Z * PageSize) :=
  let cloned_set := t in cloned_set.

Definition set_size (t : list (Z * PageSize)) : nat := length t.

(** ** The snapshot controller *)

Fixpoint backup_loop (env : Env) (l : list (Z * PageSize)) (total_size skipped : Z)
  : M SvsmReqError (Z * Z) :=
  match l with
  | [] => ret (total_size, skipped)
  | (phys_addr, size) :: l' =>
      r <- map_err FatalError (backup_page env phys_addr size) ;;
      let '(size_backed_up, size_skipped) := r in
      backup_loop env l' (total_size + size_backed_up) (skipped + size_skipped)
  end.

Definition create_full_backup (env : Env) : M SvsmReqError unit :=
  s <- get ;;
  if backup_created s then ret tt else
  _ <- backup_loop env (iter_addresses (pages_to_backup s)) 0 0 ;;
  _ <- modify (set_backup_created true) ;;
  ret tt.

(** The whole-frame store [virt_addr.as_mut_ptr::<[u8; PAGE_SIZE]>().write(..)]. *)
Definition write_frame (virt : Z) (d : list Z) (m : Z -> Z) : Z -> Z :=
  fun a => if (virt <=? a) && (a <? virt + PAGE_SIZE)
           then nth (Z.to_nat (a - virt)) d 0 else m a.

(** [zero_mem_region(start, end)] *)
Definition zero_mem_region (start end_ : Z) (m : Z -> Z) : Z -> Z :=
  fun a => if (start <=? a) && (a <? end_) then 0 else m a.

Definition restore_page (env : Env) (page_src : MemPage4K) : M SvsmError unit :=
  let paddr_dest := phys_addr page_src in
  if negb (writable_phys_addr env paddr_dest) then ret tt else
  guard_cpu <- create env paddr_dest (pa_add paddr_dest PAGE_SIZE) VIRT_ALIGN_4K ;;
  let virt := virt_addr guard_cpu in
  _ <- modify (fun s => set_mem (write_frame virt (data page_src) (mem s)) s) ;;
  ret tt.

Definition zero_page (env : Env) (paddr : Z) : M SvsmError unit :=
  if negb (writable_phys_addr env paddr) then ret tt else
  guard_cpu <- create env paddr (pa_add paddr PAGE_SIZE) VIRT_ALIGN_4K ;;
  let virt := virt_addr guard_cpu in
  _ <- modify (fun s => set_mem (zero_mem_region virt (virt + PAGE_SIZE) (mem s)) s) ;;
  ret tt.

Fixpoint restore_loop (env : Env) (l : list MemPage4K) : M SvsmReqError unit :=
  match l with
  | [] => ret tt
  | page_src :: l' => _ <- map_err FatalError (restore_page env page_src) ;; restore_loop env l'
  end.

Fixpoint zero_loop (env : Env) (l : list Z) : M SvsmReqError unit :=
  match l with
  | [] => ret tt
  | paddr :: l' => _ <- map_err FatalError (zero_page env paddr) ;; zero_loop env l'
  end.

(** [for (_paddr, _size) in PAGES_TO_CLEAR.iter_addresses() { // TODO }] *)
Fixpoint clear_loop (l : list (Z * PageSize)) : M SvsmReqError unit :=
  match l with
  | [] => ret tt
  | _ :: l' => clear_loop l'
  end.

Definition restore_pages_from_backup (env : Env) : M SvsmReqError unit :=
  s <- get ;;
  let guard := backup_pages s in
  _ <- restore_loop env guard ;;
  s <- get ;;
  let guard := zero_pages s in
  _ <- zero_loop env guard ;;
  s <- get ;;
  _ <- clear_loop (iter_addresses (pages_to_clear s)) ;;
  ret tt.

(** [rmp_set_read_only] *)
Definition rmp_set_read_only (env : Env) (vaddr : Z) (size : PageSize) : M SvsmError unit :=
  if rmp_fails env vaddr size then fail Rmp else
  modify (add_event (EvRmp vaddr size)).

Definition set_read_only (env : Env) (paddr : Z) (size : PageSize) : M SvsmError unit :=
  guard <- match size with
           | Huge => create env paddr (pa_add paddr PAGE_SIZE_2M) VIRT_ALIGN_2M
           | Regular => create env paddr (pa_add paddr PAGE_SIZE) VIRT_ALIGN_4K
           end ;;
  let virt := virt_addr guard in
  _ <- rmp_set_read_only env virt size ;;
  ret tt.

Fixpoint cow_loop (env : Env) (l : list (Z * PageSize)) : M SvsmReqError unit :=
  match l with
  | [] => ret tt
  | (phys_addr, size) :: l' => _ <- map_err FatalError (set_read_only env phys_addr size) ;; cow_loop env l'
  end.

Definition enable_copy_on_write (env : Env) : M SvsmReqError unit :=
  s <- get ;;
  _ <- cow_loop env (iter_addresses (pages_to_backup s)) ;;
  ret tt.

(** ** The request dispatcher *)

Record RequestParams := { rcx : Z; rdx : Z; r8 : Z }.

(** [backup_protocol_request(request, _params: &mut RequestParams)]: the
    outcome, the final value behind [_params], and the final state. *)
Definition backup_protocol_request (env : Env) (request : Z) (params : RequestParams)
  (s : St) : outcome SvsmReqError unit * RequestParams * St :=
  let '(r, s') :=
    if request =? SVSM_FULL_BACKUP then create_full_backup env s
    else if request =? SVSM_RESTORE then restore_pages_from_backup env s
    else if request =? SVSM_ENABLE_COPY_ON_WRITE then enable_copy_on_write env s
    else fail unsupported_call s in
  (r, params, s').

(** ** Observations on the event log *)

Definition copies (ev : list Event) : list Z :=
  flat_map (fun e => match e with EvCopy p => [p] | _ => [] end) ev.

Definition maps (ev : list Event) : list (Z * Z) :=
  flat_map (fun e => match e with EvMap a b _ => [(a, b)] | _ => [] end) ev.

Definition rmps (ev : list Event) : list (Z * PageSize) :=
  flat_map (fun e => match e with EvRmp v sz => [(v, sz)] | _ => [] end) ev.

(** The bytes [m a, m (a+1), ..., m (a+n-1)]. *)
Fixpoint bytes_from (m : Z -> Z) (a : Z) (n : nat) : list Z :=
  match n with
  | O => []
  | S n' => m a :: bytes_from m (a + 1) n'
  end.

(** The frame addresses the huge-page loop of [backup_page] hands to
    [backup_4k_page], in order: the same recurrence as [huge_loop]. *)
Fixpoint huge_addrs (paddr : Z) (n : nat) (i start_addr : Z) : list Z :=
  match n with
  | O => []
  | S n' => start_addr :: huge_addrs paddr n' (i + 1) (pa_add paddr (i * PAGE_SIZE))
  end.

(** The frame copies [backup_page] performs for one registered entry. *)
Definition entry_copies (e : Z * PageSize) : list Z :=
  match snd e with
  | Regular => [fst e]
  | Huge => huge_addrs (fst e) (Z.to_nat (PAGE_SIZE_2M / PAGE_SIZE)) 0 (fst e)
  end.

(** The frame copies of [create_full_backup], run one after the other
    with their results dropped: the copies made before a given one. *)
Fixpoint copy_frames (env : Env) (l : list Z) : M SvsmError unit :=
  match l with
  | [] => ret tt
  | p :: l' => _ <- backup_4k_page env p ;; copy_frames env l'
  end.

(** An outcome with its value dropped. *)
Definition discard {E A} (o : outcome E A) : outcome E unit :=
  match o with Ok _ => Ok tt | Err e => Err e | Panic => Panic end.

(** A history of registry updates, applied from [Set::new()]. *)
Inductive SetOp :=
| OpInsert (value : Z) (size : PageSize)
| OpRemove (value : Z) (size : PageSize).

Definition apply_op (t : list (Z * PageSize)) (op : SetOp) : list (Z * PageSize) :=
  match op with
  | OpInsert v sz => insert_addr t v sz
  | OpRemove v sz => snd (remove_addr t v sz)
  end.

Definition run_ops (ops : list SetOp) : list (Z * PageSize) :=
  fold_left apply_op ops set_new.

(** Set semantics of a history: [x] is present iff the last update that
    names it is an insertion. *)
Definition present_step (x : Z * PageSize) (b : bool) (op : SetOp) : bool :=
  match op with
  | OpInsert v sz => if pair_eqb x (v, sz) then true else b
  | OpRemove v sz => if pair_eqb x (v, sz) then false else b
  end.

Definition present_after (ops : list SetOp) (x : Z * PageSize) : bool :=
  fold_left (present_step x) ops false.

(** ** kernel/src/platform/snp.rs *)

Record CpuidResult := { eax : Z; ebx : Z; ecx : Z; edx : Z }.

Record PageEncryptionMasks := {
  private_pte_mask : Z;   (* usize *)
  shared_pte_mask : Z;    (* usize *)
  addr_mask_width : Z;    (* u32 *)
  phys_addr_sizes : Z     (* u32 *)
}.

(** [cpuid_table(leaf)] and [vtom_enabled()]. *)
Record SnpEnv := { cpuid_table : Z -> option CpuidResult; vtom_enabled : bool }.

(** [usize::leading_zeros] on a 64-bit target: the zero bits above the
    highest set bit, scanning from bit 63 down. *)
Fixpoint lz_from (n : nat) (x : Z) : Z :=
  match n with
  | O => 0
  | S n' => if Z.testbit x (Z.of_nat n') then 0 else 1 + lz_from n' x
  end.

Definition leading_zeros (x : Z) : Z := lz_from 64 x.

(** [SnpPlatform::get_page_encryption_masks]; a failed [expect] panics.
    Without vTOM the inner [res] (leaf 0x8000001f) shadows the outer one
    (leaf 0x80000008), also for [phys_addr_sizes]. *)
Definition get_page_encryption_masks (env : SnpEnv) (vtom : Z)
  : outcome unit PageEncryptionMasks :=
  match cpuid_table env 0x80000008 with
  | None => Panic
  | Some res =>
      if vtom_enabled env then
        Ok {| private_pte_mask := 0; shared_pte_mask := vtom;
              addr_mask_width := leading_zeros vtom; phys_addr_sizes := eax res |}
      else
        match cpuid_table env 0x8000001f with
        | None => Panic
        | Some res =>
            let c_bit := Z.land (ebx res) 0x3f in
            Ok {| private_pte_mask := Z.shiftl 1 c_bit; shared_pte_mask := 0;
                  addr_mask_width := c_bit; phys_addr_sizes := eax res |}
        end
  end.

(** ** src/stage2.rs

    [PhysAddr] and [VirtAddr] of the stage-2 loader are [usize]; [+= 4096]
    is written with its wrap-around ([pa_add]). The [loop]s run on a fuel
    argument: [None] means the fuel ran out before the loop left. *)

Record KernelRegion := { start : Z; end_ : Z }.

(** The page-table and validation calls of the loops, in the order made. *)
Inductive S2Act :=
| Map4k (vaddr paddr : Z)        (* pgtable.map_4k(vaddr, paddr, flags) succeeded *)
| ValidatePageMsr (paddr : Z)    (* validate_page_msr(paddr) succeeded *)
| PValidate (vaddr : Z)          (* pvalidate(vaddr, false, true) succeeded *)
| Hlt.                           (* util::halt(): one hlt instruction, which returns *)

Record S2Env := {
  map_4k_fails : Z -> Z -> bool;          (* vaddr, paddr *)
  validate_page_msr_fails : Z -> bool;
  pvalidate_fails : Z -> bool;
  sev_es_enabled : bool;
  ghcb_init_fails : bool;                 (* boot_ghcb.init() *)
  fw_kernel_region : option KernelRegion; (* fw_cfg.find_kernel_region() *)
  read_u64 : Z -> Z                       (* the 8 bytes at a physical address *)
}.

Definition KERNEL_VIRT_ADDR : Z := 0xffffff8000000000.

Definition s2_cons (a : list S2Act) (r : option (outcome unit unit * list S2Act))
  : option (outcome unit unit * list S2Act) :=
  match r with
  | Some (o, tr) => Some (o, a ++ tr)
  | None => None
  end.

Fixpoint map_memory (env : S2Env) (fuel : nat) (paddr pend vaddr : Z)
  : option (outcome unit unit * list S2Act) :=
  match fuel with
  | O => None
  | S fuel' =>
      if map_4k_fails env vaddr paddr then Some (Err tt, []) else
      let paddr' := pa_add paddr 4096 in
      let vaddr' := pa_add vaddr 4096 in
      if pend <=? paddr' then Some (Ok tt, [Map4k vaddr paddr])
      else s2_cons [Map4k vaddr paddr] (map_memory env fuel' paddr' pend vaddr')
  end.

Definition map_kernel_image (env : S2Env) (fuel : nat) (kernel_start kernel_end : Z) :=
  let vaddr := kernel_start in
  let paddr := kernel_start in
  let pend := kernel_end in
  map_memory env fuel paddr pend vaddr.

Definition map_kernel_region (env : S2Env) (fuel : nat) (region : KernelRegion) :=
  let kaddr := KERNEL_VIRT_ADDR in
  let paddr := start region in
  let pend := end_ region in
  map_memory env fuel paddr pend kaddr.

(** The loop of [validate_kernel_region]. *)
Fixpoint validate_loop (env : S2Env) (fuel : nat) (kaddr paddr pend : Z)
  : option (outcome unit unit * list S2Act) :=
  match fuel with
  | O => None
  | S fuel' =>
      if validate_page_msr_fails env paddr then Some (Err tt, []) else
      if pvalidate_fails env kaddr then Some (Err tt, [ValidatePageMsr paddr]) else
      let kaddr' := pa_add kaddr 4096 in
      let paddr' := pa_add paddr 4096 in
      if pend <=? paddr' then Some (Ok tt, [ValidatePageMsr paddr; PValidate kaddr])
      else s2_cons [ValidatePageMsr paddr; PValidate kaddr]
             (validate_loop env fuel' kaddr' paddr' pend)
  end.

Definition validate_kernel_region (env : S2Env) (fuel : nat) (region : KernelRegion) :=
  validate_loop env fuel KERNEL_VIRT_ADDR (start region) (end_ region).

(** How [stage2_main] ends: the jump into the kernel with the registers
    [copy_and_launch_kernel] loads, a panic, or a loop that did not leave
    within the fuel. *)
Inductive S2End :=
| Launched (rsi rdi rcx rax rdx : Z)
| Panicked
| OutOfFuel.

(** [copy_and_launch_kernel]: [size] and [phys_offset] are [usize]
    differences; [rep movsb] and the jump are the end of the model. *)
Definition copy_and_launch_kernel (kernel_start kernel_end vaddr entry : Z) : S2End :=
  let size := pa_sub kernel_end kernel_start in
  let phys_offset := pa_sub vaddr kernel_start in
  Launched kernel_start vaddr size entry phys_offset.

(** [stage2_main]: the calls without an effect on this model
    ([sev_status_init], [init_heap], [print_heap_info], [sev_init],
    [dump_cpuid_table], the console) are left out; the outcome of each
    [match] on the mapping and validation results only selects a message. *)
Definition stage2_main (env : S2Env) (fuel : nat) (kernel_start kernel_end : Z)
  : S2End * list S2Act :=
  if negb (sev_es_enabled env) then (Panicked, []) else
  let tr0 := if ghcb_init_fails env then [Hlt] else [] in
  match fw_kernel_region env with
  | None => (Panicked, tr0)
  | Some r =>
      match map_kernel_image env fuel kernel_start kernel_end with
      | None => (OutOfFuel, tr0)
      | Some (_, tr1) =>
          match map_kernel_region env fuel r with
          | None => (OutOfFuel, tr0 ++ tr1)
          | Some (_, tr2) =>
              match validate_kernel_region env fuel r with
              | None => (OutOfFuel, tr0 ++ tr1 ++ tr2)
              | Some (_, tr3) =>
                  let vaddr := read_u64 env kernel_start in
                  let entry := read_u64 env (kernel_start + 8) in
                  (copy_and_launch_kernel kernel_start kernel_end vaddr entry,
                   tr0 ++ tr1 ++ tr2 ++ tr3)
              end
          end
      end
  end.

(** ** Concrete configurations used to exercise the development *)

(** Every collaborator succeeds and every page is writable. *)
Definition env_ok : Env :=
  {| map_fails := fun _ _ _ => false; read_fault := fun _ => false;
     writable_phys_addr := fun _ => true; rmp_fails := fun _ _ => false |}.

(** As [env_ok], but reading any byte of the page at 0x2000 faults. *)
Definition env_fault_2000 : Env :=
  {| map_fails := fun _ _ _ => false;
     read_fault := fun a => (0x2000 <=? a) && (a <? 0x3000);
     writable_phys_addr := fun _ => true; rmp_fails := fun _ _ => false |}.

(** As [env_ok], but no page is writable. *)
Definition env_ro : Env :=
  {| map_fails := fun _ _ _ => false; read_fault := fun _ => false;
     writable_phys_addr := fun _ => false; rmp_fails := fun _ _ => false |}.

(** As [env_ok], but the RMP write-protect of the page at 0x2000 fails. *)
Definition env_rmp_2000 : Env :=
  {| map_fails := fun _ _ _ => false; read_fault := fun _ => false;
     writable_phys_addr := fun _ => true; rmp_fails := fun v _ => v =? 0x2000 |}.

(** The module state at start-up, with given memory and registered pages. *)
Definition st_init (m : Z -> Z) (backup clear : list (Z * PageSize)) : St :=
  {| mem := m; free_frames := 64; pages_to_backup := backup;
     pages_to_clear := clear; backup_pages := []; zero_pages := [];
     backup_created := false; events := [] |}.

Definition zero_mem : Z -> Z := fun _ => 0.

(** Zero everywhere except the last byte of the frame at 0x1000. *)
Definition last_byte_mem : Z -> Z := fun a => if a =? 0x1FFF then 7 else 0.

(** 0xAA on the frame at 0x1000, zero elsewhere. *)
Definition aa_mem : Z -> Z :=
  fun a => if (0x1000 <=? a) && (a <? 0x2000) then 0xAA else 0.

(** A CPUID table with the address-size leaf and the C-bit leaf (C-bit 47),
    with vTOM enabled and disabled. *)
Definition snp_cpuid (leaf : Z) : option CpuidResult :=
  if leaf =? 0x80000008 then Some {| eax := 0x3030; ebx := 0; ecx := 0; edx := 0 |}
  else if leaf =? 0x8000001f then Some {| eax := 0x1b; ebx := 0x16f; ecx := 0; edx := 0 |}
  else None.

Definition snp_env_vtom : SnpEnv := {| cpuid_table := snp_cpuid; vtom_enabled := true |}.
Definition snp_env_cbit : SnpEnv := {| cpuid_table := snp_cpuid; vtom_enabled := false |}.

(** A stage-2 platform on which every page-table and validation call
    succeeds; the kernel region is 0x100000 .. 0x102000 and the kernel
    metadata at 0x10000 names [KERNEL_VIRT_ADDR]. *)
Definition s2_env_ok : S2Env :=
  {| map_4k_fails := fun _ _ => false; validate_page_msr_fails := fun _ => false;
     pvalidate_fails := fun _ => false; sev_es_enabled := true; ghcb_init_fails := false;
     fw_kernel_region := Some {| start := 0x100000; end_ := 0x102000 |};
     read_u64 := fun a => if a =? 0x10000 then KERNEL_VIRT_ADDR else 0xffffff8000001000 |}.

(** As [s2_env_ok], but every [map_4k] fails, [pvalidate] fails on the
    second page of the kernel region, and the GHCB cannot be set up. *)
Definition s2_env_failing : S2Env :=
  {| map_4k_fails := fun _ _ => true; validate_page_msr_fails := fun _ => false;
     pvalidate_fails := fun v => v =? KERNEL_VIRT_ADDR + 0x1000;
     sev_es_enabled := true; ghcb_init_fails := true;
     fw_kernel_region := Some {| start := 0x100000; end_ := 0x102000 |};
     read_u64 := fun a => if a =? 0x10000 then KERNEL_VIRT_ADDR else 0xffffff8000001000 |}.

(** A registry history: 0x2000 is inserted and later removed again. *)
Definition ops_example : list SetOp :=
  [OpInsert 0x2000 Regular; OpInsert 0x1000 Huge; OpInsert 0x1000 Regular;
   OpRemove 0x2000 Regular; OpInsert 0x3000 Regular; OpInsert 0x1000 Huge].

(** * Lemmas *)

Lemma bind_Ok {E A B} (m : M E A) (k : A -> M E B) s b s' :
  bind m k s = (Ok b, s') ->
  exists a s1, m s = (Ok a, s1) /\ k a s1 = (Ok b, s').
Proof.
  unfold bind. destruct (m s) as [[a|e|] s1]; intro H; try discriminate.
  eauto.
Qed.

Lemma bind_Err {E A B} (m : M E A) (k : A -> M E B) s e s' :
  bind m k s = (Err e, s') ->
  m s = (Err e, s') \/ exists a s1, m s = (Ok a, s1) /\ k a s1 = (Err e, s').
Proof.
  unfold bind. destruct (m s) as [[a|e'|] s1]; intro H; try discriminate.
  - right; eauto.
  - injection H as -> ->; left; reflexivity.
Qed.

Lemma map_err_Ok {E F A} (f : E -> F) (m : M E A) s a s' :
  map_err f m s = (Ok a, s') -> m s = (Ok a, s').
Proof.
  unfold map_err. destruct (m s) as [[a'|e'|] s1]; intro H; try discriminate.
  injection H as -> ->; reflexivity.
Qed.

Lemma map_err_Err {E F A} (f : E -> F) (m : M E A) s e s' :
  map_err f m s = (Err e, s') -> exists e0, m s = (Err e0, s') /\ e = f e0.
Proof.
  unfold map_err. destruct (m s) as [[a'|e'|] s1]; intro H; try discriminate.
  injection H as He Hs; subst; eauto.
Qed.

Tactic Notation "inv_ok" hyp(H) "as" ident(a) ident(s1) ident(H1) ident(H2) :=
  apply bind_Ok in H; destruct H as (a & s1 & H1 & H2).

Lemma create_Ok env a b al s g s' :
  create env a b al s = (Ok g, s') ->
  Z.land (pa_sub b a) (align_mask al) = 0 /\ Z.land a (align_mask al) = 0 /\
  Z.land b (align_mask al) = 0 /\ virt_addr g = a /\
  s' = add_event (EvMap a b (huge g)) s.
Proof.
  unfold create, panic, fail, bind, modify, ret.
  destruct (Z.land (pa_sub b a) (align_mask al) =? 0) eqn:E1; simpl; try discriminate.
  destruct (Z.land a (align_mask al) =? 0) eqn:E2; simpl; try discriminate.
  destruct (Z.land b (align_mask al) =? 0) eqn:E3; simpl; try discriminate.
  destruct (map_fails _ _ _ _); try discriminate.
  intro H; injection H as <- <-.
  apply Z.eqb_eq in E1, E2, E3. repeat split; auto.
Qed.

Lemma create_not_Ok env a b al s o s' :
  create env a b al s = (o, s') -> (forall g, o <> Ok g) -> s' = s.
Proof.
  unfold create, panic, fail, bind, modify, ret.
  destruct (_ =? 0); simpl; [|congruence].
  destruct (_ =? 0); simpl; [|congruence].
  destruct (_ =? 0); simpl; [|congruence].
  destruct (map_fails _ _ _ _); [congruence|].
  intros H; injection H as <- <-. intros Hn. exfalso; eapply Hn; reflexivity.
Qed.

Lemma copy_loop_Ok env m v n i zero acc z page :
  copy_loop env m v n i zero acc = Ok (z, page) ->
  page = rev_append acc (bytes_from m (v + i) n) /\
  z = zero && forallb (fun x => x =? 0) (bytes_from m (v + i) n).
Proof.
  revert i zero acc. induction n as [|n IH]; intros i zero acc H; simpl in H.
  - injection H as <- <-. simpl. rewrite andb_true_r. auto.
  - destruct (read_fault env (v + i)); [discriminate|].
    apply IH in H as [-> ->]. simpl.
    replace (v + (i + 1)) with (v + i + 1) by lia.
    split; [reflexivity|].
    destruct (m (v + i) =? 0); simpl; [reflexivity|].
    destruct zero; reflexivity.
Qed.

Lemma bytes_from_exists m a n :
  existsb (fun x => negb (x =? 0)) (bytes_from m a n) = true <->
  exists i, 0 <= i < Z.of_nat n /\ m (a + i) <> 0.
Proof.
  revert a. induction n as [|n IH]; intro a; simpl.
  - split; [discriminate|]. intros (i & Hi & _). lia.
  - rewrite orb_true_iff, IH, negb_true_iff, Z.eqb_neq. split.
    + intros [H | (i & Hi & H)].
      * exists 0. rewrite Z.add_0_r. split; [lia|exact H].
      * exists (i + 1). replace (a + (i + 1)) with (a + 1 + i) by lia.
        split; [lia|exact H].
    + intros (i & Hi & H).
      destruct (Z.eq_dec i 0) as [->|Hne].
      * left. rewrite Z.add_0_r in H. exact H.
      * right. exists (i - 1). replace (a + 1 + (i - 1)) with (a + i) by lia.
        split; [lia|exact H].
Qed.

Lemma forallb_zero_existsb (l : list Z) :
  forallb (fun x => x =? 0) l = negb (existsb (fun x => negb (x =? 0)) l).
Proof.
  induction l as [|x l IH]; simpl; [reflexivity|].
  rewrite IH. destruct (x =? 0); reflexivity.
Qed.

Lemma rev_append_nil_bytes (l : list Z) : rev_append [] l = l.
Proof. reflexivity. Qed.

(** The successful run of [backup_4k_page]. *)
Lemma backup_4k_page_Ok env p s b s' :
  backup_4k_page env p s = (Ok b, s') ->
  let bytes := bytes_from (mem s) p (Z.to_nat PAGE_SIZE) in
  Z.land p (align_mask VIRT_ALIGN_4K) = 0 /\
  mem s' = mem s /\ pages_to_backup s' = pages_to_backup s /\
  pages_to_clear s' = pages_to_clear s /\ backup_created s' = backup_created s /\
  copies (events s') = copies (events s) ++ [p] /\
  b = existsb (fun x => negb (x =? 0)) bytes /\
  (b = true -> backup_pages s' = backup_pages s ++ [{| phys_addr := p; data := bytes |}] /\
               zero_pages s' = zero_pages s) /\
  (b = false -> backup_pages s' = backup_pages s /\ zero_pages s' = zero_pages s ++ [p]).
Proof.
  unfold backup_4k_page. intro H. cbv zeta.
  remember (Z.to_nat PAGE_SIZE) as N eqn:HN. clear HN.
  inv_ok H as u s1 H1 H. unfold modify in H1. injection H1 as <- <-.
  inv_ok H as g s2 H1 H. apply create_Ok in H1 as (_ & Hal & _ & Hv & ->).
  inv_ok H as u s3 H1 H. unfold try_new_uninit in H1.
  destruct (free_frames _) as [|n]; [discriminate|]. injection H1 as <- <-.
  inv_ok H as s4 s5 H1 H. unfold get in H1; injection H1 as <- <-.
  inv_ok H as r s6 H1 H. unfold lift_outcome in H1. injection H1 as Hc <-.
  destruct r as [zero page]. rewrite Hv in Hc.
  apply copy_loop_Ok in Hc as [Hp Hz]. rewrite Z.add_0_r in Hp, Hz.
  rewrite rev_append_nil_bytes in Hp. rewrite andb_true_l in Hz. subst page.
  rewrite forallb_zero_existsb in Hz.
  destruct zero.
  - inv_ok H as u s7 H1 H. unfold free_frame, modify in H1; injection H1 as <- <-.
    inv_ok H as u s8 H1 H. unfold modify in H1; injection H1 as <- <-.
    unfold ret in H; injection H as <- <-. simpl.
    unfold copies. rewrite !flat_map_app. simpl.
    destruct (existsb _ _); [discriminate|].
    repeat split; auto; try discriminate. rewrite app_nil_r. reflexivity.
  - inv_ok H as u s7 H1 H. unfold modify in H1; injection H1 as <- <-.
    unfold ret in H; injection H as <- <-. simpl.
    unfold copies. rewrite !flat_map_app. simpl.
    destruct (existsb _ _); [|discriminate].
    repeat split; auto; try discriminate. rewrite app_nil_r. reflexivity.
Qed.

(** The snapshot store only grows, and keeps its flag. *)
Definition store_ext (s s1 : St) : Prop :=
  (exists bp, backup_pages s1 = backup_pages s ++ bp) /\
  (exists zp, zero_pages s1 = zero_pages s ++ zp) /\
  backup_created s1 = backup_created s.

Lemma store_ext_refl s : store_ext s s.
Proof. split; [|split]; [exists []|exists []|]; rewrite ?app_nil_r; reflexivity. Qed.

Lemma store_ext_trans s1 s2 s3 : store_ext s1 s2 -> store_ext s2 s3 -> store_ext s1 s3.
Proof.
  intros ((b1 & Hb1) & (z1 & Hz1) & Hc1) ((b2 & Hb2) & (z2 & Hz2) & Hc2).
  split; [|split].
  - exists (b1 ++ b2). rewrite Hb2, Hb1, app_assoc. reflexivity.
  - exists (z1 ++ z2). rewrite Hz2, Hz1, app_assoc. reflexivity.
  - congruence.
Qed.

Lemma backup_4k_page_Ok_ext env p s b s' :
  backup_4k_page env p s = (Ok b, s') -> store_ext s s' /\ mem s' = mem s.
Proof.
  intro H. apply backup_4k_page_Ok in H.
  cbv zeta in H. destruct H as (_ & Hm & _ & _ & Hc & _ & _ & Ht & Hf).
  split; [|exact Hm]. split; [|split; [|exact Hc]].
  - destruct b.
    + destruct (Ht eq_refl) as [-> _]. eexists; reflexivity.
    + destruct (Hf eq_refl) as [-> _]. exists []. rewrite app_nil_r; reflexivity.
  - destruct b.
    + destruct (Ht eq_refl) as [_ ->]. exists []. rewrite app_nil_r; reflexivity.
    + destruct (Hf eq_refl) as [_ ->]. eexists; reflexivity.
Qed.

(** A failed [backup_4k_page] leaves the store and the flag as they were. *)
Lemma backup_4k_page_Err env p s e s' :
  backup_4k_page env p s = (Err e, s') ->
  backup_pages s' = backup_pages s /\ zero_pages s' = zero_pages s /\
  backup_created s' = backup_created s.
Proof.
  unfold backup_4k_page. intro H.
  remember (Z.to_nat PAGE_SIZE) as N eqn:HN. clear HN.
  apply bind_Err in H as [H | (u & s1 & H1 & H)]; [discriminate|].
  unfold modify in H1; injection H1 as <- <-.
  apply bind_Err in H as [H | (g & s2 & H1 & H)].
  { apply create_not_Ok in H; [|congruence]. subst s'. auto. }
  apply create_Ok in H1 as (_ & _ & _ & _ & ->).
  apply bind_Err in H as [H | (u & s3 & H1 & H)].
  { unfold try_new_uninit in H. destruct (free_frames _); [|discriminate].
    injection H as _ <-. auto. }
  unfold try_new_uninit in H1. destruct (free_frames _); [discriminate|].
  injection H1 as <- <-.
  apply bind_Err in H as [H | (s4 & s5 & H1 & H)]; [discriminate|].
  unfold get in H1; injection H1 as <- <-.
  apply bind_Err in H as [H | (r & s6 & H1 & H)].
  { unfold lift_outcome in H. injection H as _ <-. auto. }
  destruct r as [[|] page].
  - apply bind_Err in H as [H | (u & s7 & H1' & H)]; [discriminate|].
    apply bind_Err in H as [H | (u' & s8 & H1'' & H)]; [discriminate|].
    discriminate.
  - apply bind_Err in H as [H | (u & s7 & H1' & H)]; [discriminate|].
    discriminate.
Qed.

Lemma huge_loop_Err env paddr n i sa bs s e s' :
  huge_loop env paddr n i sa bs s = (Err e, s') ->
  exists q s1, store_ext s s1 /\ backup_4k_page env q s1 = (Err e, s').
Proof.
  revert i sa bs s. induction n as [|n IH]; intros i sa bs s H; simpl in H.
  - discriminate.
  - apply bind_Err in H as [H | (b & s1 & H1 & H)].
    + exists sa, s. split; [apply store_ext_refl|exact H].
    + apply IH in H as (q & s2 & Hext & Hq).
      apply backup_4k_page_Ok_ext in H1 as [Hext1 _].
      exists q, s2. split; [eapply store_ext_trans; eauto|exact Hq].
Qed.

Lemma backup_page_Huge env paddr :
  backup_page env paddr Huge =
  (backup_size <- huge_loop env paddr (Z.to_nat (PAGE_SIZE_2M / PAGE_SIZE)) 0 paddr 0 ;;
   ret (backup_size, PAGE_SIZE_2M - backup_size)).
Proof. reflexivity. Qed.

Lemma backup_page_Err env paddr size s e s' :
  backup_page env paddr size s = (Err e, s') ->
  exists q s1, store_ext s s1 /\ backup_4k_page env q s1 = (Err e, s').
Proof.
  intro H; destruct size.
  - unfold backup_page in H. apply bind_Err in H as [H | (b & s1 & H1 & H)].
    + exists paddr, s. split; [apply store_ext_refl|exact H].
    + destruct b; discriminate.
  - rewrite backup_page_Huge in H. apply bind_Err in H as [H | (b & s1 & H1 & H)].
    + eapply huge_loop_Err; exact H.
    + discriminate.
Qed.

Lemma huge_loop_Ok_ext env paddr n i sa bs s r s' :
  huge_loop env paddr n i sa bs s = (Ok r, s') -> store_ext s s' /\ mem s' = mem s.
Proof.
  revert i sa bs s. induction n as [|n IH]; intros i sa bs s H; simpl in H.
  - unfold ret in H; injection H as _ <-. split; [apply store_ext_refl|reflexivity].
  - inv_ok H as b s1 H1 H.
    apply backup_4k_page_Ok_ext in H1 as [Hext1 Hm1].
    apply IH in H as [Hext2 Hm2]. split; [eapply store_ext_trans; eauto|congruence].
Qed.

Lemma backup_page_Ok_ext env paddr size s r s' :
  backup_page env paddr size s = (Ok r, s') -> store_ext s s' /\ mem s' = mem s.
Proof.
  intro H; destruct size.
  - unfold backup_page in H. inv_ok H as b s1 H1 H. apply backup_4k_page_Ok_ext in H1.
    destruct b; unfold ret in H; injection H as _ <-; exact H1.
  - rewrite backup_page_Huge in H. inv_ok H as b s1 H1 H. apply huge_loop_Ok_ext in H1.
    unfold ret in H. apply (f_equal snd) in H. cbn [snd] in H. subst s'. exact H1.
Qed.

Lemma backup_loop_Err env l ts sk s r s' :
  backup_loop env l ts sk s = (Err r, s') ->
  exists q s1 e, store_ext s s1 /\ backup_4k_page env q s1 = (Err e, s') /\ r = FatalError e.
Proof.
  revert ts sk s. induction l as [|[p sz] l IH]; intros ts sk s H; simpl in H.
  - discriminate.
  - apply bind_Err in H as [H | (x & s1 & H1 & H)].
    + apply map_err_Err in H as (e0 & H & ->).
      apply backup_page_Err in H as (q & s1 & Hext & Hq).
      exists q, s1, e0. auto.
    + apply map_err_Ok in H1. apply backup_page_Ok_ext in H1 as [Hext1 _].
      destruct x as [a b].
      apply IH in H as (q & s2 & e & Hext & Hq & ->).
      exists q, s2, e. split; [eapply store_ext_trans; eauto|auto].
Qed.

Lemma land_align_mask x al :
  0 <= al -> Z.land x (align_mask al) = x mod Z.shiftl PAGE_SIZE al.
Proof.
  intro Hal. unfold align_mask, PAGE_SIZE.
  rewrite Z.shiftl_mul_pow2 by lia.
  replace (4096 * 2 ^ al) with (2 ^ (12 + al)) by (rewrite Z.pow_add_r by lia; reflexivity).
  replace (2 ^ (12 + al) - 1) with (Z.ones (12 + al)) by (rewrite Z.ones_equiv; lia).
  apply Z.land_ones. lia.
Qed.

Lemma shiftl_align_2M : Z.shiftl PAGE_SIZE VIRT_ALIGN_2M = PAGE_SIZE_2M.
Proof. reflexivity. Qed.

(** ** The ordered set *)

Definition PageSize_rank (p : PageSize) : Z :=
  match p with Regular => 0 | Huge => 1 end.

Definition pair_lt (x y : Z * PageSize) : Prop := pair_ltb x y = true.

Lemma pair_ltb_spec x y :
  pair_ltb x y = true <->
  fst x < fst y \/ (fst x = fst y /\ PageSize_rank (snd x) < PageSize_rank (snd y)).
Proof.
  unfold pair_ltb. rewrite orb_true_iff, andb_true_iff, Z.ltb_lt, Z.eqb_eq.
  destruct (snd x), (snd y); simpl; intuition (try discriminate; try lia).
Qed.

Lemma pair_eqb_spec x y : pair_eqb x y = true <-> x = y.
Proof.
  destruct x as [a sa], y as [b sb]. unfold pair_eqb; simpl.
  rewrite andb_true_iff, Z.eqb_eq.
  destruct sa, sb; simpl; intuition (try discriminate; try congruence).
Qed.

Lemma pair_lt_irrefl x : ~ pair_lt x x.
Proof. unfold pair_lt. rewrite pair_ltb_spec. lia. Qed.

Lemma pair_lt_trans x y z : pair_lt x y -> pair_lt y z -> pair_lt x z.
Proof. unfold pair_lt. rewrite !pair_ltb_spec. lia. Qed.

Lemma pair_lt_total x y :
  pair_ltb x y = false -> pair_eqb x y = false -> pair_lt y x.
Proof.
  intros H1 H2. unfold pair_lt. rewrite pair_ltb_spec.
  assert (H1' : ~ pair_ltb x y = true) by congruence.
  assert (H2' : x <> y) by (rewrite <- pair_eqb_spec; congruence).
  rewrite pair_ltb_spec in H1'.
  destruct x as [a sa], y as [b sb]; simpl in *.
  destruct sa, sb; simpl in *; try (assert (a <> b) by congruence); lia.
Qed.

Lemma btree_insert_In x y t : In y (btree_insert x t) <-> y = x \/ In y t.
Proof.
  induction t as [|a t IH]; simpl.
  - intuition.
  - destruct (pair_ltb x a); [simpl; intuition|].
    destruct (pair_eqb x a) eqn:E.
    + apply pair_eqb_spec in E. subst. simpl. intuition.
    + simpl. rewrite IH. intuition.
Qed.

Lemma btree_insert_sorted x t :
  StronglySorted pair_lt t -> StronglySorted pair_lt (btree_insert x t).
Proof.
  induction t as [|a t IH]; simpl; intro H.
  - repeat constructor.
  - apply StronglySorted_inv in H as [Hs Hf].
    destruct (pair_ltb x a) eqn:E1.
    + constructor; [constructor; assumption|].
      constructor; [exact E1|].
      rewrite Forall_forall in *. intros z Hz. eapply pair_lt_trans; [exact E1|auto].
    + destruct (pair_eqb x a) eqn:E2; [constructor; assumption|].
      constructor; [auto|].
      rewrite Forall_forall in *. intros z Hz. apply btree_insert_In in Hz as [->|Hz]; auto.
      apply pair_lt_total; assumption.
Qed.

Lemma btree_remove_In x y t :
  StronglySorted pair_lt t -> (In y (snd (btree_remove x t)) <-> In y t /\ y <> x).
Proof.
  induction t as [|a t IH]; simpl; intro H.
  - tauto.
  - apply StronglySorted_inv in H as [Hs Hf].
    destruct (pair_eqb x a) eqn:E.
    + apply pair_eqb_spec in E. subst a. simpl.
      rewrite Forall_forall in Hf. split.
      * intro Hy. split; [right; exact Hy|].
        intros ->. apply (pair_lt_irrefl x). auto.
      * intros [[->|Hy] Hne]; [congruence|exact Hy].
    + destruct (btree_remove x t) as [b t''] eqn:Er. simpl.
      specialize (IH Hs). simpl in IH. rewrite IH.
      apply Bool.not_true_iff_false in E. rewrite pair_eqb_spec in E.
      intuition congruence.
Qed.

Lemma btree_remove_sorted x t :
  StronglySorted pair_lt t -> StronglySorted pair_lt (snd (btree_remove x t)).
Proof.
  induction t as [|a t IH]; simpl; intro H.
  - constructor.
  - pose proof H as H0. apply StronglySorted_inv in H as [Hs Hf].
    destruct (pair_eqb x a); [exact Hs|].
    pose proof (btree_remove_In x) as Hin.
    destruct (btree_remove x t) as [b t''] eqn:Er. simpl in *.
    constructor; [auto|].
    rewrite Forall_forall in *. intros z Hz.
    specialize (Hin z t Hs). rewrite Er in Hin. simpl in Hin.
    apply Hin in Hz as [Hz _]. auto.
Qed.

Lemma sorted_NoDup t : StronglySorted pair_lt t -> NoDup t.
Proof.
  induction t as [|a t IH]; intro H; constructor.
  - apply StronglySorted_inv in H as [_ Hf]. rewrite Forall_forall in Hf.
    intro Ha. apply (pair_lt_irrefl a). auto.
  - apply StronglySorted_inv in H as [Hs _]. auto.
Qed.

Lemma fold_ops_spec ops t (f : Z * PageSize -> bool) :
  StronglySorted pair_lt t -> (forall x, In x t <-> f x = true) ->
  StronglySorted pair_lt (fold_left apply_op ops t) /\
  (forall x, In x (fold_left apply_op ops t) <-> fold_left (present_step x) ops (f x) = true).
Proof.
  revert t f. induction ops as [|op ops IH]; intros t f Hs Hf; simpl.
  - auto.
  - apply (IH (apply_op t op) (fun x => present_step x (f x) op)).
    + destruct op; cbn [apply_op]; [apply btree_insert_sorted|apply btree_remove_sorted]; exact Hs.
    + intro x. destruct op as [v sz|v sz]; cbn [apply_op present_step].
      * unfold insert_addr. rewrite btree_insert_In, Hf.
        destruct (pair_eqb x (v, sz)) eqn:E.
        -- apply pair_eqb_spec in E. intuition.
        -- apply Bool.not_true_iff_false in E. rewrite pair_eqb_spec in E. intuition.
      * unfold remove_addr. rewrite btree_remove_In by exact Hs. rewrite Hf.
        destruct (pair_eqb x (v, sz)) eqn:E.
        -- apply pair_eqb_spec in E. intuition congruence.
        -- apply Bool.not_true_iff_false in E. rewrite pair_eqb_spec in E. intuition.
Qed.

(** ** Traces of the controller *)

Lemma copies_app l1 l2 : copies (l1 ++ l2) = copies l1 ++ copies l2.
Proof. unfold copies. apply flat_map_app. Qed.

Lemma rmps_app l1 l2 : rmps (l1 ++ l2) = rmps l1 ++ rmps l2.
Proof. unfold rmps. apply flat_map_app. Qed.

Lemma huge_loop_copies env paddr n i sa bs s r s' :
  huge_loop env paddr n i sa bs s = (Ok r, s') ->
  copies (events s') = copies (events s) ++ huge_addrs paddr n i sa.
Proof.
  revert i sa bs s. induction n as [|n IH]; intros i sa bs s H; simpl in H.
  - unfold ret in H. apply (f_equal snd) in H. cbn [snd] in H. subst s'.
    simpl. rewrite app_nil_r. reflexivity.
  - inv_ok H as b s1 H1 H.
    apply backup_4k_page_Ok in H1. cbv zeta in H1.
    destruct H1 as (_ & _ & _ & _ & _ & Hc & _).
    apply IH in H. rewrite H, Hc, <- app_assoc. reflexivity.
Qed.

Lemma entry_copies_Huge paddr :
  entry_copies (paddr, Huge) =
  huge_addrs paddr (Z.to_nat (PAGE_SIZE_2M / PAGE_SIZE)) 0 paddr.
Proof. reflexivity. Qed.

Lemma backup_page_copies env paddr size s r s' :
  backup_page env paddr size s = (Ok r, s') ->
  copies (events s') = copies (events s) ++ entry_copies (paddr, size).
Proof.
  intro H; destruct size.
  - unfold backup_page in H. inv_ok H as b s1 H1 H.
    apply backup_4k_page_Ok in H1. cbv zeta in H1.
    destruct H1 as (_ & _ & _ & _ & _ & Hc & _).
    destruct b; unfold ret in H; apply (f_equal snd) in H; cbn [snd] in H; subst s';
      exact Hc.
  - rewrite backup_page_Huge in H. inv_ok H as b s1 H1 H.
    apply huge_loop_copies in H1.
    unfold ret in H. apply (f_equal snd) in H. cbn [snd] in H. subst s'.
    rewrite entry_copies_Huge. exact H1.
Qed.

Lemma backup_loop_copies env l ts sk s r s' :
  backup_loop env l ts sk s = (Ok r, s') ->
  copies (events s') = copies (events s) ++ flat_map entry_copies l.
Proof.
  revert ts sk s. induction l as [|[p sz] l IH]; intros ts sk s H; simpl in H.
  - unfold ret in H. apply (f_equal snd) in H. cbn [snd] in H. subst s'.
    simpl. rewrite app_nil_r. reflexivity.
  - inv_ok H as x s1 H1 H. apply map_err_Ok in H1.
    apply backup_page_copies in H1. destruct x as [a b].
    apply IH in H. rewrite H, H1, <- app_assoc. reflexivity.
Qed.

Lemma create_full_backup_copies env s s' :
  backup_created s = false ->
  create_full_backup env s = (Ok tt, s') ->
  copies (events s') =
    copies (events s) ++ flat_map entry_copies (iter_addresses (pages_to_backup s)).
Proof.
  intros Hc H. unfold create_full_backup in H.
  inv_ok H as s0 s1 H1 H. unfold get in H1; injection H1 as <- <-.
  rewrite Hc in H.
  inv_ok H as tots s2 H1 H. apply backup_loop_copies in H1.
  inv_ok H as u s3 H2 H. unfold modify in H2; injection H2 as <- <-.
  unfold ret in H; injection H as <-. exact H1.
Qed.

Lemma copy_frames_app env l1 l2 s :
  copy_frames env (l1 ++ l2) s = bind (copy_frames env l1) (fun _ => copy_frames env l2) s.
Proof.
  revert s; induction l1 as [|p l1 IH]; intro s; cbn [app copy_frames].
  - reflexivity.
  - unfold bind at 1 2 3. destruct (backup_4k_page env p s) as [[b|e|] s1].
    + rewrite IH. reflexivity.
    + reflexivity.
    + reflexivity.
Qed.

Lemma copy_frames_Ok_ext env l s u s' :
  copy_frames env l s = (Ok u, s') -> store_ext s s'.
Proof.
  revert s; induction l as [|p l IH]; intros s H; cbn [copy_frames] in H.
  - unfold ret in H; injection H as _ <-. apply store_ext_refl.
  - inv_ok H as b s1 H1 H. eapply store_ext_trans.
    + exact (proj1 (backup_4k_page_Ok_ext _ _ _ _ _ H1)).
    + exact (IH _ H).
Qed.

Lemma huge_loop_frames env paddr n i start bs s :
  (discard (fst (huge_loop env paddr n i start bs s)), snd (huge_loop env paddr n i start bs s))
  = copy_frames env (huge_addrs paddr n i start) s.
Proof.
  revert i start bs s; induction n as [|n IH]; intros i start bs s;
    cbn [huge_loop huge_addrs copy_frames].
  - reflexivity.
  - unfold bind at 1 2 3. destruct (backup_4k_page env start s) as [[b|e|] s1].
    + apply IH.
    + reflexivity.
    + reflexivity.
Qed.

Lemma backup_page_frames env paddr size s :
  (discard (fst (backup_page env paddr size s)), snd (backup_page env paddr size s))
  = copy_frames env (entry_copies (paddr, size)) s.
Proof.
  destruct size.
  - change (entry_copies (paddr, Regular)) with [paddr]. cbn [copy_frames].
    unfold backup_page, bind, ret.
    destruct (backup_4k_page env paddr s) as [[[|]|e|] s1]; reflexivity.
  - rewrite backup_page_Huge, entry_copies_Huge, <- (huge_loop_frames env paddr _ 0 paddr 0).
    remember (Z.to_nat (PAGE_SIZE_2M / PAGE_SIZE)) as N eqn:HN; clear HN.
    unfold bind, ret. destruct (huge_loop env paddr N 0 paddr 0 s) as [[b|e|] s1]; reflexivity.
Qed.

Lemma backup_loop_frames env l ts sk s :
  (discard (fst (backup_loop env l ts sk s)), snd (backup_loop env l ts sk s))
  = map_err FatalError (copy_frames env (flat_map entry_copies l)) s.
Proof.
  revert ts sk s; induction l as [|[p sz] l IH]; intros ts sk s; cbn [backup_loop flat_map].
  - reflexivity.
  - pose proof (backup_page_frames env p sz s) as Hb.
    unfold map_err at 3. rewrite copy_frames_app.
    unfold map_err, bind in *.
    destruct (backup_page env p sz s) as [[[a b]|e|] s1]; cbn [fst snd discard] in Hb;
      rewrite <- Hb.
    + apply IH.
    + reflexivity.
    + reflexivity.
Qed.

Lemma create_full_backup_frames env s :
  backup_created s = false ->
  (discard (fst (create_full_backup env s)), snd (create_full_backup env s)) =
  match copy_frames env (flat_map entry_copies (iter_addresses (pages_to_backup s))) s with
  | (Ok _, s1) => (Ok tt, set_backup_created true s1)
  | (Err e, s1) => (Err (FatalError e), s1)
  | (Panic, s1) => (Panic, s1)
  end.
Proof.
  intro Hc. pose proof (backup_loop_frames env (iter_addresses (pages_to_backup s)) 0 0 s) as H.
  unfold create_full_backup, get, bind, modify, ret. cbv beta iota. rewrite Hc.
  unfold map_err in H.
  destruct (backup_loop env (iter_addresses (pages_to_backup s)) 0 0 s) as [[r|e|] s1];
  destruct (copy_frames env (flat_map entry_copies (iter_addresses (pages_to_backup s))) s)
    as [[u|e'|] s2]; cbn [fst snd discard] in H; try discriminate;
    inversion H; subst; reflexivity.
Qed.

Lemma set_read_only_rmps env paddr size s s' :
  set_read_only env paddr size s = (Ok tt, s') ->
  rmps (events s') = rmps (events s) ++ [(paddr, size)].
Proof.
  unfold set_read_only. intro H.
  inv_ok H as g s1 H1 H.
  assert (Hg : virt_addr g = paddr /\ rmps (events s1) = rmps (events s)).
  { destruct size; apply create_Ok in H1 as (_ & _ & _ & Hv & ->);
      (split; [exact Hv|]); simpl; rewrite rmps_app, app_nil_r; reflexivity. }
  destruct Hg as [Hv Hr1].
  inv_ok H as u s2 H2 H. unfold rmp_set_read_only in H2. rewrite Hv in H2.
  destruct (rmp_fails env paddr size); [discriminate|].
  unfold modify in H2; injection H2 as <- <-.
  unfold ret in H; injection H as <-. simpl. rewrite rmps_app, Hr1. reflexivity.
Qed.

Lemma cow_loop_rmps env l s s' :
  cow_loop env l s = (Ok tt, s') -> rmps (events s') = rmps (events s) ++ l.
Proof.
  revert s. induction l as [|[p sz] l IH]; intros s H; simpl in H.
  - unfold ret in H; injection H as <-. rewrite app_nil_r. reflexivity.
  - inv_ok H as u s1 H1 H. apply map_err_Ok in H1. destruct u.
    apply set_read_only_rmps in H1. apply IH in H.
    rewrite H, H1, <- app_assoc. reflexivity.
Qed.

Lemma enable_copy_on_write_rmps env s s' :
  enable_copy_on_write env s = (Ok tt, s') ->
  rmps (events s') = rmps (events s) ++ iter_addresses (pages_to_backup s).
Proof.
  unfold enable_copy_on_write. intro H.
  inv_ok H as s0 s1 H1 H. unfold get in H1; injection H1 as <- <-.
  inv_ok H as u s2 H1 H. destruct u. apply cow_loop_rmps in H1.
  unfold ret in H; injection H as <-. exact H1.
Qed.

(** ** Restore *)

Lemma bind_inv {E A B} (P : St -> St -> Prop)
  (Htrans : forall x y z, P x y -> P y z -> P x z)
  (m : M E A) (k : A -> M E B) s o s' :
  (forall o1 s1, m s = (o1, s1) -> P s s1) ->
  (forall a s1, m s = (Ok a, s1) -> forall o2 s2, k a s1 = (o2, s2) -> P s1 s2) ->
  bind m k s = (o, s') -> P s s'.
Proof.
  intros Hm Hk. unfold bind. destruct (m s) as [o1 s1] eqn:Em.
  destruct o1 as [a|e|]; intro H.
  - eapply Htrans; [eapply Hm; reflexivity|eapply Hk; eauto].
  - injection H as _ <-. eapply Hm; reflexivity.
  - injection H as _ <-. eapply Hm; reflexivity.
Qed.

Lemma map_err_inv {E F A} (P : St -> St -> Prop) (f : E -> F) (m : M E A) s o s' :
  (forall o1 s1, m s = (o1, s1) -> P s s1) -> map_err f m s = (o, s') -> P s s'.
Proof.
  intro Hm. unfold map_err. destruct (m s) as [o1 s1] eqn:Em.
  destruct o1; intro H; injection H as _ <-; eapply Hm; reflexivity.
Qed.

(** The restore phase keeps the snapshot store and the registries. *)
Definition same_store (s s' : St) : Prop :=
  backup_pages s' = backup_pages s /\ zero_pages s' = zero_pages s /\
  pages_to_clear s' = pages_to_clear s /\ pages_to_backup s' = pages_to_backup s /\
  backup_created s' = backup_created s.

(** Byte [a] is unchanged and the store is kept. *)
Definition keeps (a : Z) (s s' : St) : Prop := mem s' a = mem s a /\ same_store s s'.

Lemma keeps_trans a x y z : keeps a x y -> keeps a y z -> keeps a x z.
Proof. unfold keeps, same_store. intuition congruence. Qed.

Lemma keeps_refl a x : keeps a x x.
Proof. unfold keeps, same_store. intuition. Qed.

Lemma create_keeps env b e al s o s' a : create env b e al s = (o, s') -> keeps a s s'.
Proof.
  intro H. destruct o as [g| |].
  - apply create_Ok in H as (_ & _ & _ & _ & ->).
    unfold keeps, same_store; simpl; intuition.
  - apply create_not_Ok in H; [subst; apply keeps_refl|congruence].
  - apply create_not_Ok in H; [subst; apply keeps_refl|congruence].
Qed.

Lemma restore_page_keeps env r s o s' a :
  ~ (phys_addr r <= a < phys_addr r + PAGE_SIZE) ->
  restore_page env r s = (o, s') -> keeps a s s'.
Proof.
  intros Ha. unfold restore_page.
  destruct (writable_phys_addr env (phys_addr r)); simpl;
    [|intro H; injection H as _ <-; apply keeps_refl].
  apply bind_inv; [apply keeps_trans|intros; eapply create_keeps; eauto|].
  intros g s1 Hc o2 s2 H. apply create_Ok in Hc as (_ & _ & _ & Hv & _).
  unfold bind, modify, ret in H. injection H as _ <-.
  split; [|unfold same_store; simpl; intuition].
  simpl. unfold write_frame. rewrite Hv.
  destruct ((phys_addr r <=? a) && (a <? phys_addr r + PAGE_SIZE)) eqn:E; [|reflexivity].
  apply andb_true_iff in E as [E1 E2]. apply Z.leb_le in E1. apply Z.ltb_lt in E2.
  exfalso; apply Ha; split; assumption.
Qed.

Lemma zero_page_keeps env p s o s' a :
  ~ (p <= a < p + PAGE_SIZE) -> zero_page env p s = (o, s') -> keeps a s s'.
Proof.
  intros Ha. unfold zero_page.
  destruct (writable_phys_addr env p); simpl;
    [|intro H; injection H as _ <-; apply keeps_refl].
  apply bind_inv; [apply keeps_trans|intros; eapply create_keeps; eauto|].
  intros g s1 Hc o2 s2 H. apply create_Ok in Hc as (_ & _ & _ & Hv & _).
  unfold bind, modify, ret in H. injection H as _ <-.
  split; [|unfold same_store; simpl; intuition].
  simpl. unfold zero_mem_region. rewrite Hv.
  destruct ((p <=? a) && (a <? p + PAGE_SIZE)) eqn:E; [|reflexivity].
  apply andb_true_iff in E as [E1 E2]. apply Z.leb_le in E1. apply Z.ltb_lt in E2.
  exfalso; apply Ha; split; assumption.
Qed.

Lemma restore_loop_keeps env l s o s' a :
  (forall r, In r l -> ~ (phys_addr r <= a < phys_addr r + PAGE_SIZE)) ->
  restore_loop env l s = (o, s') -> keeps a s s'.
Proof.
  revert s o s'. induction l as [|r l IH]; intros s o s' Hl H; simpl in H.
  - unfold ret in H; injection H as _ <-. apply keeps_refl.
  - revert H. apply bind_inv; [apply keeps_trans| |].
    + intros o1 s1. apply map_err_inv. intros o0 s0.
      apply restore_page_keeps. apply Hl. left; reflexivity.
    + intros u s1 _ o2 s2. apply IH. intros r' Hr'. apply Hl. right; exact Hr'.
Qed.

Lemma zero_loop_keeps env l s o s' a :
  (forall p, In p l -> ~ (p <= a < p + PAGE_SIZE)) ->
  zero_loop env l s = (o, s') -> keeps a s s'.
Proof.
  revert s o s'. induction l as [|p l IH]; intros s o s' Hl H; simpl in H.
  - unfold ret in H; injection H as _ <-. apply keeps_refl.
  - revert H. apply bind_inv; [apply keeps_trans| |].
    + intros o1 s1. apply map_err_inv. intros o0 s0.
      apply zero_page_keeps. apply Hl. left; reflexivity.
    + intros u s1 _ o2 s2. apply IH. intros p' Hp'. apply Hl. right; exact Hp'.
Qed.

Lemma clear_loop_Ok l s : clear_loop l s = (Ok tt, s).
Proof. induction l as [|x l IH]; simpl; [reflexivity|exact IH]. Qed.

(** ** The round trip *)

Lemma nth_bytes_from m b n k :
  0 <= k < Z.of_nat n -> nth (Z.to_nat k) (bytes_from m b n) 0 = m (b + k).
Proof.
  revert b k. induction n as [|n IH]; intros b k Hk; [lia|].
  cbn [bytes_from].
  destruct (Z.eq_dec k 0) as [->|Hne].
  - rewrite Z.add_0_r. reflexivity.
  - replace (Z.to_nat k) with (S (Z.to_nat (k - 1))) by lia.
    cbn [nth]. rewrite IH by lia. f_equal. lia.
Qed.

Lemma bytes_from_all_zero m b n :
  existsb (fun x => negb (x =? 0)) (bytes_from m b n) = false ->
  forall k, 0 <= k < Z.of_nat n -> m (b + k) = 0.
Proof.
  intros H k Hk. destruct (Z.eq_dec (m (b + k)) 0) as [E|E]; [exact E|].
  exfalso. assert (Ht : existsb (fun x => negb (x =? 0)) (bytes_from m b n) = true)
    by (apply bytes_from_exists; eauto). congruence.
Qed.

(** What the snapshot store says about the memory [m] it was taken from. *)
Definition captured (m : Z -> Z) (st : St) : Prop :=
  (forall r, In r (backup_pages st) ->
     data r = bytes_from m (phys_addr r) (Z.to_nat PAGE_SIZE)) /\
  (forall p, In p (zero_pages st) -> forall k, 0 <= k < PAGE_SIZE -> m (p + k) = 0).

(** The frame at [p] has a record. *)
Definition recorded (st : St) (p : Z) : Prop :=
  (exists r, In r (backup_pages st) /\ phys_addr r = p) \/ In p (zero_pages st).

Lemma backup_loop_capture env l ts sk s r s' :
  backup_loop env l ts sk s = (Ok r, s') ->
  (forall e, In e l -> snd e = Regular) ->
  captured (mem s) s ->
  captured (mem s) s' /\ mem s' = mem s /\
  (forall p, recorded s p -> recorded s' p) /\
  (forall p, In (p, Regular) l -> recorded s' p).
Proof.
  revert ts sk s. induction l as [|[p sz] l IH]; intros ts sk s H Hreg Hcap; simpl in H.
  - apply (f_equal snd) in H; cbn [snd] in H; subst s'.
    split; [exact Hcap|]. split; [reflexivity|]. split; [tauto|]. intros ? [].
  - assert (Hsz : sz = Regular) by (apply (Hreg (p, sz)); left; reflexivity). subst sz.
    inv_ok H as x s1 H1 H. apply map_err_Ok in H1. unfold backup_page in H1.
    inv_ok H1 as b s2 Hb H1.
    assert (Hs12 : s1 = s2)
      by (destruct b; unfold ret in H1; apply (f_equal snd) in H1; cbn [snd] in H1;
          symmetry; exact H1).
    subst s1.
    apply backup_4k_page_Ok in Hb. cbv zeta in Hb.
    destruct Hb as (_ & Hm & _ & _ & _ & _ & Hbv & Ht & Hf).
    assert (Hstep : captured (mem s) s2 /\ (forall q, recorded s q -> recorded s2 q) /\
                    recorded s2 p).
    { destruct Hcap as [Hcb Hcz]. destruct b.
      - destruct (Ht eq_refl) as [Hbp Hzp].
        split; [split|split].
        + intros r' Hr'. rewrite Hbp in Hr'. apply in_app_or in Hr' as [Hr'|[<-|[]]].
          * auto.
          * reflexivity.
        + intros q Hq. rewrite Hzp in Hq. auto.
        + intros q [(r' & Hr' & Hq)|Hq]; [left|right].
          * exists r'. rewrite Hbp. split; [apply in_or_app; left|]; assumption.
          * rewrite Hzp. exact Hq.
        + left. eexists. rewrite Hbp. split; [apply in_or_app; right; left; reflexivity|].
          reflexivity.
      - destruct (Hf eq_refl) as [Hbp Hzp].
        split; [split|split].
        + intros r' Hr'. rewrite Hbp in Hr'. auto.
        + intros q Hq. rewrite Hzp in Hq. apply in_app_or in Hq as [Hq|[<-|[]]]; [auto|].
          intros k Hk. apply (bytes_from_all_zero (mem s) p (Z.to_nat PAGE_SIZE)).
          * symmetry. exact Hbv.
          * rewrite Z2Nat.id by (unfold PAGE_SIZE; lia). exact Hk.
        + intros q [(r' & Hr' & Hq)|Hq]; [left|right].
          * exists r'. rewrite Hbp. auto.
          * rewrite Hzp. apply in_or_app; left; exact Hq.
        + right. rewrite Hzp. apply in_or_app; right; left; reflexivity. }
    destruct Hstep as (Hcap2 & Hmono & Hp).
    destruct x as [x1 x2].
    rewrite <- Hm in Hcap2.
    destruct (IH _ _ _ H) as (Hcap' & Hm' & Hmono' & Hl');
      [intros e He; apply Hreg; right; exact He|exact Hcap2|].
    rewrite Hm in Hcap', Hm'.
    split; [exact Hcap'|]. split; [exact Hm'|]. split; [auto|].
    intros q [Hq|Hq]; [injection Hq as ->; auto|auto].
Qed.

Definition covers_b (p a : Z) : bool := (p <=? a) && (a <? p + PAGE_SIZE).

Lemma restore_page_Ok_val env r s s' a :
  restore_page env r s = (Ok tt, s') ->
  same_store s s' /\
  mem s' a = if writable_phys_addr env (phys_addr r) && covers_b (phys_addr r) a
             then nth (Z.to_nat (a - phys_addr r)) (data r) 0 else mem s a.
Proof.
  unfold restore_page. intro H.
  destruct (writable_phys_addr env (phys_addr r)); simpl in H |- *.
  - inv_ok H as g s1 H1 H. apply create_Ok in H1 as (_ & _ & _ & Hv & ->).
    unfold bind, modify, ret in H. injection H as <-.
    split; [unfold same_store; simpl; intuition|].
    simpl. unfold write_frame, covers_b. rewrite Hv. reflexivity.
  - unfold ret in H; injection H as <-. split; [unfold same_store; intuition|reflexivity].
Qed.

Lemma zero_page_Ok_val env p s s' a :
  zero_page env p s = (Ok tt, s') ->
  same_store s s' /\
  mem s' a = if writable_phys_addr env p && covers_b p a then 0 else mem s a.
Proof.
  unfold zero_page. intro H.
  destruct (writable_phys_addr env p); simpl in H |- *.
  - inv_ok H as g s1 H1 H. apply create_Ok in H1 as (_ & _ & _ & Hv & ->).
    unfold bind, modify, ret in H. injection H as <-.
    split; [unfold same_store; simpl; intuition|].
    simpl. unfold zero_mem_region, covers_b. rewrite Hv. reflexivity.
  - unfold ret in H; injection H as <-. split; [unfold same_store; intuition|reflexivity].
Qed.

Lemma restore_loop_Ok_val env l s s' a v :
  restore_loop env l s = (Ok tt, s') ->
  (forall r, In r l -> writable_phys_addr env (phys_addr r) && covers_b (phys_addr r) a = true ->
     nth (Z.to_nat (a - phys_addr r)) (data r) 0 = v) ->
  same_store s s' /\ (mem s' a = v \/ mem s' a = mem s a) /\
  ((exists r, In r l /\ writable_phys_addr env (phys_addr r) && covers_b (phys_addr r) a = true) ->
   mem s' a = v).
Proof.
  revert s. induction l as [|r l IH]; intros s H Hv; simpl in H.
  - unfold ret in H; injection H as <-.
    split; [unfold same_store; intuition|]. split; [right; reflexivity|].
    intros (r & [] & _).
  - inv_ok H as u s1 H1 H. apply map_err_Ok in H1. destruct u.
    apply (restore_page_Ok_val _ _ _ _ a) in H1 as [Hs1 Hm1].
    destruct (IH s1 H) as (Hs' & Hm' & Hex); [intros r' Hr'; apply Hv; right; exact Hr'|].
    split; [unfold same_store in *; intuition congruence|].
    destruct (writable_phys_addr env (phys_addr r) && covers_b (phys_addr r) a) eqn:Ec.
    + rewrite (Hv r (or_introl eq_refl) Ec) in Hm1.
      split; [left; destruct Hm' as [->| ->]; congruence|].
      intros _. destruct Hm' as [->| ->]; congruence.
    + split; [destruct Hm' as [->| ->]; [left|right]; congruence|].
      intros (r' & [<-|Hr'] & Hc); [congruence|]. apply Hex. eauto.
Qed.

Lemma zero_loop_Ok_val env l s s' a v :
  zero_loop env l s = (Ok tt, s') ->
  (forall p, In p l -> writable_phys_addr env p && covers_b p a = true -> 0 = v) ->
  same_store s s' /\ (mem s' a = v \/ mem s' a = mem s a) /\
  ((exists p, In p l /\ writable_phys_addr env p && covers_b p a = true) -> mem s' a = v).
Proof.
  revert s. induction l as [|p l IH]; intros s H Hv; simpl in H.
  - unfold ret in H; injection H as <-.
    split; [unfold same_store; intuition|]. split; [right; reflexivity|].
    intros (p & [] & _).
  - inv_ok H as u s1 H1 H. apply map_err_Ok in H1. destruct u.
    apply (zero_page_Ok_val _ _ _ _ a) in H1 as [Hs1 Hm1].
    destruct (IH s1 H) as (Hs' & Hm' & Hex); [intros p' Hp'; apply Hv; right; exact Hp'|].
    split; [unfold same_store in *; intuition congruence|].
    destruct (writable_phys_addr env p && covers_b p a) eqn:Ec.
    + rewrite (Hv p (or_introl eq_refl) Ec) in Hm1.
      split; [left; destruct Hm' as [->| ->]; congruence|].
      intros _. destruct Hm' as [->| ->]; congruence.
    + split; [destruct Hm' as [->| ->]; [left|right]; congruence|].
      intros (p' & [<-|Hp'] & Hc); [congruence|]. apply Hex. eauto.
Qed.

(** ** The address sets, further *)

Lemma contains_addr_In t v sz : contains_addr t v sz = true <-> In (v, sz) t.
Proof.
  unfold contains_addr. rewrite existsb_exists. split.
  - intros (x & Hx & E). apply pair_eqb_spec in E. subst x. exact Hx.
  - intro H. exists (v, sz). split; [exact H|]. apply pair_eqb_spec. reflexivity.
Qed.

Lemma btree_remove_fst x t : fst (btree_remove x t) = existsb (pair_eqb x) t.
Proof.
  induction t as [|y t IH]; simpl; [reflexivity|].
  destruct (pair_eqb x y); [reflexivity|].
  destruct (btree_remove x t) as [b t'']. exact IH.
Qed.

Lemma btree_remove_length x t :
  (length (snd (btree_remove x t)) + (if existsb (pair_eqb x) t then 1 else 0) = length t)%nat.
Proof.
  induction t as [|y t IH]; simpl; [reflexivity|].
  destruct (pair_eqb x y); simpl; [lia|].
  destruct (btree_remove x t) as [b t'']. simpl in *. lia.
Qed.

Lemma btree_insert_length x t :
  StronglySorted pair_lt t ->
  length (btree_insert x t) = (length t + if existsb (pair_eqb x) t then 0 else 1)%nat.
Proof.
  induction t as [|y t IH]; intro Hs; simpl; [reflexivity|].
  apply StronglySorted_inv in Hs as [Hs Hf]. rewrite Forall_forall in Hf.
  destruct (pair_ltb x y) eqn:E1.
  - assert (Hn : existsb (pair_eqb x) (y :: t) = false).
    { apply Bool.not_true_iff_false. rewrite existsb_exists.
      intros (z & Hz & Ez). apply pair_eqb_spec in Ez. subst z.
      destruct Hz as [Hy|Hz].
      - rewrite Hy in E1. apply (pair_lt_irrefl x). exact E1.
      - apply (pair_lt_irrefl x). eapply pair_lt_trans; [exact E1|]. apply Hf. exact Hz. }
    simpl in Hn. rewrite Hn. simpl. lia.
  - destruct (pair_eqb x y) eqn:E2; simpl; [lia|].
    rewrite IH by exact Hs. reflexivity.
Qed.

(** ** The mapping guard, further *)

Lemma land_pow2_mod x n : 0 <= n -> Z.land x (2 ^ n - 1) = x mod 2 ^ n.
Proof.
  intro Hn. replace (2 ^ n - 1) with (Z.ones n) by (rewrite Z.ones_equiv; lia).
  apply Z.land_ones. exact Hn.
Qed.

Lemma pa_add_mod_pow2 p n k : 0 <= k <= 64 -> pa_add p n mod 2 ^ k = (p + n) mod 2 ^ k.
Proof.
  intro Hk. unfold pa_add, WORD. apply Z.mod_mod_divide.
  exists (2 ^ (64 - k)). rewrite <- Z.pow_add_r by lia. f_equal. lia.
Qed.

Lemma pa_sub_add_small p n : 0 <= n < WORD -> pa_sub (pa_add p n) p = n.
Proof.
  intro Hn. unfold pa_sub, pa_add.
  rewrite Zminus_mod_idemp_l. replace (p + n - p) with n by lia.
  apply Z.mod_small. exact Hn.
Qed.

Lemma pa_add_small p n : 0 <= p + n < WORD -> pa_add p n = p + n.
Proof. intro H. unfold pa_add. apply Z.mod_small. exact H. Qed.

Lemma pa_add_0 v : 0 <= v < WORD -> pa_add v 0 = v.
Proof. intro H. unfold pa_add. rewrite Z.add_0_r. apply Z.mod_small. exact H. Qed.

Lemma pa_add_pa_add v a b : pa_add (pa_add v a) b = pa_add v (a + b).
Proof. unfold pa_add. rewrite Zplus_mod_idemp_l. f_equal. lia. Qed.

Lemma create_Err env a b al s e s' : create env a b al s = (Err e, s') -> e = Mapping.
Proof.
  unfold create, panic, fail, bind, modify, ret.
  destruct (_ =? 0); simpl; [|discriminate].
  destruct (_ =? 0); simpl; [|discriminate].
  destruct (_ =? 0); simpl; [|discriminate].
  destruct (map_fails _ _ _ _); [|discriminate].
  intro H; injection H as <- _. reflexivity.
Qed.

Lemma create_fst env a b al s t : fst (create env a b al s) = fst (create env a b al t).
Proof.
  unfold create, panic, fail, bind, modify, ret.
  destruct (_ =? 0); simpl; [|reflexivity].
  destruct (_ =? 0); simpl; [|reflexivity].
  destruct (_ =? 0); simpl; [|reflexivity].
  destruct (map_fails _ _ _ _); reflexivity.
Qed.

(** ** Counting records and frames *)

Definition page_size_bytes (size : PageSize) : Z :=
  match size with Regular => PAGE_SIZE | Huge => PAGE_SIZE_2M end.

Definition total_bytes (l : list (Z * PageSize)) : Z :=
  fold_right (fun e acc => page_size_bytes (snd e) + acc) 0 l.

Lemma backup_4k_page_Ok_frames env p s b s' :
  backup_4k_page env p s = (Ok b, s') ->
  free_frames s = (free_frames s' + if b then 1 else 0)%nat.
Proof.
  unfold backup_4k_page. intro H.
  remember (Z.to_nat PAGE_SIZE) as N eqn:HN. clear HN.
  inv_ok H as u s1 H1 H. unfold modify in H1. injection H1 as <- <-.
  inv_ok H as g s2 H1 H. apply create_Ok in H1 as (_ & _ & _ & _ & ->).
  inv_ok H as u s3 H1 H. unfold try_new_uninit in H1.
  destruct (free_frames _) as [|n] eqn:Ef; [discriminate|]. injection H1 as <- <-.
  inv_ok H as s4 s5 H1 H. unfold get in H1; injection H1 as <- <-.
  inv_ok H as r s6 H1 H. unfold lift_outcome in H1. injection H1 as _ <-.
  destruct r as [zero page]. simpl in Ef. destruct zero.
  - inv_ok H as u s7 H1 H. unfold free_frame, modify in H1; injection H1 as <- <-.
    inv_ok H as u s8 H1 H. unfold modify in H1; injection H1 as <- <-.
    unfold ret in H; injection H as <- <-. simpl. lia.
  - inv_ok H as u s7 H1 H. unfold modify in H1; injection H1 as <- <-.
    unfold ret in H; injection H as <- <-. simpl. lia.
Qed.

Lemma backup_4k_page_Ok_counts env p s b s' :
  backup_4k_page env p s = (Ok b, s') ->
  length (backup_pages s') = (length (backup_pages s) + if b then 1 else 0)%nat /\
  length (zero_pages s') = (length (zero_pages s) + if b then 0 else 1)%nat /\
  free_frames s = (free_frames s' + if b then 1 else 0)%nat.
Proof.
  intro H. pose proof (backup_4k_page_Ok_frames _ _ _ _ _ H) as Hf.
  apply backup_4k_page_Ok in H. cbv zeta in H.
  destruct H as (_ & _ & _ & _ & _ & _ & _ & Ht & Hz).
  destruct b.
  - destruct (Ht eq_refl) as [-> ->]. rewrite length_app. simpl. lia.
  - destruct (Hz eq_refl) as [-> ->]. rewrite length_app. simpl. lia.
Qed.

Lemma huge_loop_counts env paddr n i sa bs s r s' :
  huge_loop env paddr n i sa bs s = (Ok r, s') ->
  exists nb nz,
    length (backup_pages s') = (length (backup_pages s) + nb)%nat /\
    length (zero_pages s') = (length (zero_pages s) + nz)%nat /\
    free_frames s = (free_frames s' + nb)%nat /\
    (nb + nz = n)%nat /\ r = bs + PAGE_SIZE * Z.of_nat nb.
Proof.
  revert i sa bs s. induction n as [|n IH]; intros i sa bs s H; simpl in H.
  - unfold ret in H; injection H as <- <-. exists O, O. repeat split; lia.
  - inv_ok H as b s1 H1 H.
    apply backup_4k_page_Ok_counts in H1 as (Hb & Hz & Hf).
    apply IH in H as (nb & nz & Hb' & Hz' & Hf' & Hn & Hr).
    exists (nb + if b then 1 else 0)%nat, (nz + if b then 0 else 1)%nat.
    rewrite Hr. destruct b; repeat split; try lia.
Qed.

Lemma backup_page_counts env paddr size s b k s' :
  backup_page env paddr size s = (Ok (b, k), s') ->
  exists nb nz,
    length (backup_pages s') = (length (backup_pages s) + nb)%nat /\
    length (zero_pages s') = (length (zero_pages s) + nz)%nat /\
    free_frames s = (free_frames s' + nb)%nat /\
    b = PAGE_SIZE * Z.of_nat nb /\ k = PAGE_SIZE * Z.of_nat nz /\
    b + k = page_size_bytes size.
Proof.
  intro H. destruct size.
  - unfold backup_page in H. inv_ok H as c s1 H1 H.
    apply backup_4k_page_Ok_counts in H1 as (Hb & Hz & Hf).
    destruct c; unfold ret in H; injection H as <- <- <-.
    + exists 1%nat, O. repeat split; try lia.
    + exists O, 1%nat. repeat split; try lia.
  - rewrite backup_page_Huge in H. inv_ok H as r s1 H1 H.
    apply huge_loop_counts in H1 as (nb & nz & Hb & Hz & Hf & Hn & Hr).
    unfold ret in H.
    pose proof (f_equal (fun x => match fst x with Ok (u, _) => u | _ => 0 end) H) as Eb.
    pose proof (f_equal (fun x => match fst x with Ok (_, v) => v | _ => 0 end) H) as Ek.
    pose proof (f_equal snd H) as Es. cbn [snd] in Es. subst s'.
    cbv beta iota in Eb, Ek. cbn [fst] in Eb, Ek. subst b k. clear H.
    assert (H512 : Z.of_nat (Z.to_nat (PAGE_SIZE_2M / PAGE_SIZE)) = 512) by reflexivity.
    exists nb, nz. unfold page_size_bytes.
    rewrite <- Hn, Nat2Z.inj_add in H512.
    unfold PAGE_SIZE, PAGE_SIZE_2M in *. repeat split; try lia.
Qed.

Lemma backup_loop_counts env l ts sk s t k s' :
  backup_loop env l ts sk s = (Ok (t, k), s') ->
  exists nb nz,
    length (backup_pages s') = (length (backup_pages s) + nb)%nat /\
    length (zero_pages s') = (length (zero_pages s) + nz)%nat /\
    free_frames s = (free_frames s' + nb)%nat /\
    t = ts + PAGE_SIZE * Z.of_nat nb /\ k = sk + PAGE_SIZE * Z.of_nat nz /\
    t + k = ts + sk + total_bytes l.
Proof.
  revert ts sk s. induction l as [|[p sz] l IH]; intros ts sk s H; simpl in H.
  - unfold ret in H; injection H as <- <- <-. exists O, O.
    simpl. repeat split; lia.
  - inv_ok H as x s1 H1 H. apply map_err_Ok in H1. destruct x as [b c].
    apply backup_page_counts in H1 as (nb & nz & Hb & Hz & Hf & Eb & Ec & Hs).
    apply IH in H as (nb' & nz' & Hb' & Hz' & Hf' & Et & Ek & Hs').
    exists (nb + nb')%nat, (nz + nz')%nat. simpl total_bytes. simpl snd.
    repeat split; try lia.
Qed.

(** ** The restore phase and copy-on-write leave the store alone *)

Definition untouched (s s' : St) : Prop :=
  same_store s s' /\ free_frames s' = free_frames s.

Lemma untouched_refl s : untouched s s.
Proof. unfold untouched, same_store. intuition. Qed.

Lemma untouched_trans x y z : untouched x y -> untouched y z -> untouched x z.
Proof. unfold untouched, same_store. intuition congruence. Qed.

Lemma create_untouched env b e al s o s' :
  create env b e al s = (o, s') -> untouched s s' /\ mem s' = mem s.
Proof.
  intro H. destruct o as [g| |].
  - apply create_Ok in H as (_ & _ & _ & _ & ->).
    unfold untouched, same_store; simpl; intuition.
  - apply create_not_Ok in H; [subst; split; [apply untouched_refl|reflexivity]|congruence].
  - apply create_not_Ok in H; [subst; split; [apply untouched_refl|reflexivity]|congruence].
Qed.

Lemma restore_page_untouched env r s o s' :
  restore_page env r s = (o, s') -> untouched s s'.
Proof.
  unfold restore_page.
  destruct (writable_phys_addr env (phys_addr r)); simpl;
    [|intro H; injection H as _ <-; apply untouched_refl].
  apply bind_inv; [apply untouched_trans|intros; eapply create_untouched; eauto|].
  intros g s1 _ o2 s2 H. unfold bind, modify, ret in H. injection H as _ <-.
  unfold untouched, same_store; simpl; intuition.
Qed.

Lemma zero_page_untouched env p s o s' :
  zero_page env p s = (o, s') -> untouched s s'.
Proof.
  unfold zero_page.
  destruct (writable_phys_addr env p); simpl;
    [|intro H; injection H as _ <-; apply untouched_refl].
  apply bind_inv; [apply untouched_trans|intros; eapply create_untouched; eauto|].
  intros g s1 _ o2 s2 H. unfold bind, modify, ret in H. injection H as _ <-.
  unfold untouched, same_store; simpl; intuition.
Qed.

Lemma restore_loop_untouched env l s o s' :
  restore_loop env l s = (o, s') -> untouched s s'.
Proof.
  revert s o s'. induction l as [|r l IH]; intros s o s' H; simpl in H.
  - unfold ret in H; injection H as _ <-. apply untouched_refl.
  - revert H. apply bind_inv; [apply untouched_trans| |].
    + intros o1 s1. apply map_err_inv. intros o0 s0. apply restore_page_untouched.
    + intros u s1 _ o2 s2. apply IH.
Qed.

Lemma zero_loop_untouched env l s o s' :
  zero_loop env l s = (o, s') -> untouched s s'.
Proof.
  revert s o s'. induction l as [|p l IH]; intros s o s' H; simpl in H.
  - unfold ret in H; injection H as _ <-. apply untouched_refl.
  - revert H. apply bind_inv; [apply untouched_trans| |].
    + intros o1 s1. apply map_err_inv. intros o0 s0. apply zero_page_untouched.
    + intros u s1 _ o2 s2. apply IH.
Qed.

(** Nothing but the event log changes. *)
Definition only_events (s s' : St) : Prop := untouched s s' /\ mem s' = mem s.

Lemma only_events_trans x y z : only_events x y -> only_events y z -> only_events x z.
Proof.
  intros [H1 M1] [H2 M2]. split; [eapply untouched_trans; eauto|congruence].
Qed.

Lemma only_events_refl s : only_events s s.
Proof. split; [apply untouched_refl|reflexivity]. Qed.

Lemma set_read_only_only_events env paddr size s o s' :
  set_read_only env paddr size s = (o, s') -> only_events s s'.
Proof.
  unfold set_read_only.
  apply bind_inv; [apply only_events_trans| |].
  { intros o1 s1 H. destruct size; eapply create_untouched; eauto. }
  intros g s1 _ o2 s2. apply bind_inv; [apply only_events_trans| |].
  - intros o1 s3. unfold rmp_set_read_only, fail, modify.
    destruct (rmp_fails _ _ _); intro H; injection H as _ <-;
      [apply only_events_refl|].
    unfold only_events, untouched, same_store; simpl; intuition.
  - intros u s3 _ o4 s4 H. unfold ret in H; injection H as _ <-. apply only_events_refl.
Qed.

Lemma cow_loop_only_events env l s o s' :
  cow_loop env l s = (o, s') -> only_events s s'.
Proof.
  revert s o s'. induction l as [|[p sz] l IH]; intros s o s' H; simpl in H.
  - unfold ret in H; injection H as _ <-. apply only_events_refl.
  - revert H. apply bind_inv; [apply only_events_trans| |].
    + intros o1 s1. apply map_err_inv. intros o0 s0. apply set_read_only_only_events.
    + intros u s1 _ o2 s2. apply IH.
Qed.

(** ** Restore as an overlay *)

Definition ov (o : option Z) (d : Z) : Z := match o with Some v => v | None => d end.

(** The value the last writable record covering [a] stores there. *)
Fixpoint rcover (env : Env) (l : list MemPage4K) (a : Z) (acc : option Z) : option Z :=
  match l with
  | [] => acc
  | r :: l' =>
      rcover env l' a
        (if writable_phys_addr env (phys_addr r) && covers_b (phys_addr r) a
         then Some (nth (Z.to_nat (a - phys_addr r)) (data r) 0) else acc)
  end.

Fixpoint zcover (env : Env) (l : list Z) (a : Z) (acc : option Z) : option Z :=
  match l with
  | [] => acc
  | p :: l' => zcover env l' a (if writable_phys_addr env p && covers_b p a then Some 0 else acc)
  end.

Lemma restore_loop_Ok_cover env l s s' :
  restore_loop env l s = (Ok tt, s') ->
  forall acc d a, mem s a = ov acc d -> mem s' a = ov (rcover env l a acc) d.
Proof.
  revert s. induction l as [|r l IH]; intros s H acc d a Ha; simpl in H.
  - unfold ret in H; injection H as <-. exact Ha.
  - inv_ok H as u s1 H1 H. apply map_err_Ok in H1. destruct u.
    apply (restore_page_Ok_val _ _ _ _ a) in H1 as [_ Hm1].
    cbn [rcover]. apply (IH s1 H). rewrite Hm1.
    destruct (_ && _); [reflexivity|exact Ha].
Qed.

Lemma zero_loop_Ok_cover env l s s' :
  zero_loop env l s = (Ok tt, s') ->
  forall acc d a, mem s a = ov acc d -> mem s' a = ov (zcover env l a acc) d.
Proof.
  revert s. induction l as [|p l IH]; intros s H acc d a Ha; simpl in H.
  - unfold ret in H; injection H as <-. exact Ha.
  - inv_ok H as u s1 H1 H. apply map_err_Ok in H1. destruct u.
    apply (zero_page_Ok_val _ _ _ _ a) in H1 as [_ Hm1].
    cbn [zcover]. apply (IH s1 H). rewrite Hm1.
    destruct (_ && _); [reflexivity|exact Ha].
Qed.

Lemma restore_page_fst env r s t :
  fst (restore_page env r s) = fst (restore_page env r t).
Proof.
  unfold restore_page. destruct (writable_phys_addr env (phys_addr r)); simpl; [|reflexivity].
  unfold bind. pose proof (create_fst env (phys_addr r) (pa_add (phys_addr r) PAGE_SIZE)
                             VIRT_ALIGN_4K s t) as E.
  destruct (create _ _ _ _ s) as [[g| |] s1], (create _ _ _ _ t) as [[g'| |] t1];
    simpl in E; try discriminate; try reflexivity.
  injection E as ->. reflexivity.
Qed.

Lemma zero_page_fst env p s t : fst (zero_page env p s) = fst (zero_page env p t).
Proof.
  unfold zero_page. destruct (writable_phys_addr env p); simpl; [|reflexivity].
  unfold bind. pose proof (create_fst env p (pa_add p PAGE_SIZE) VIRT_ALIGN_4K s t) as E.
  destruct (create _ _ _ _ s) as [[g| |] s1], (create _ _ _ _ t) as [[g'| |] t1];
    simpl in E; try discriminate; try reflexivity.
  injection E as ->. reflexivity.
Qed.

Lemma restore_loop_fst env l s t : fst (restore_loop env l s) = fst (restore_loop env l t).
Proof.
  revert s t. induction l as [|r l IH]; intros s t; simpl; [reflexivity|].
  unfold bind, map_err. pose proof (restore_page_fst env r s t) as E.
  destruct (restore_page env r s) as [[u| |] s1], (restore_page env r t) as [[u'| |] t1];
    simpl in E; try discriminate; try reflexivity.
  - apply IH.
  - injection E as ->. reflexivity.
Qed.

Lemma zero_loop_fst env l s t : fst (zero_loop env l s) = fst (zero_loop env l t).
Proof.
  revert s t. induction l as [|p l IH]; intros s t; simpl; [reflexivity|].
  unfold bind, map_err. pose proof (zero_page_fst env p s t) as E.
  destruct (zero_page env p s) as [[u| |] s1], (zero_page env p t) as [[u'| |] t1];
    simpl in E; try discriminate; try reflexivity.
  - apply IH.
  - injection E as ->. reflexivity.
Qed.

(** ** Leading zeros *)

Lemma lz_from_log2 n x :
  0 < x < 2 ^ Z.of_nat n -> lz_from n x = Z.of_nat n - 1 - Z.log2 x.
Proof.
  induction n as [|n IH]; intro Hx.
  - simpl in Hx. lia.
  - cbn [lz_from].
    assert (Hl : Z.log2 x < Z.of_nat (S n)) by (apply Z.log2_lt_pow2; lia).
    destruct (Z.eq_dec (Z.log2 x) (Z.of_nat n)) as [E|E].
    + rewrite <- E, Z.bit_log2 by lia. lia.
    + rewrite Z.bits_above_log2 by lia.
      rewrite IH; [lia|]. split; [lia|]. apply Z.log2_lt_pow2; lia.
Qed.

(** ** The stage-2 loops *)

Lemma map_memory_pages_gen env fuel paddr pend vaddr n j :
  (1 <= n <= fuel)%nat -> 0 <= paddr -> paddr + 4096 * Z.of_nat n < WORD ->
  0 <= vaddr < WORD ->
  (forall i, (1 <= i < n)%nat -> paddr + 4096 * Z.of_nat i < pend) ->
  pend <= paddr + 4096 * Z.of_nat n ->
  (j <= n)%nat ->
  (forall i, (i < j)%nat ->
     map_4k_fails env (pa_add vaddr (4096 * Z.of_nat i)) (paddr + 4096 * Z.of_nat i) = false) ->
  ((j < n)%nat ->
     map_4k_fails env (pa_add vaddr (4096 * Z.of_nat j)) (paddr + 4096 * Z.of_nat j) = true) ->
  map_memory env fuel paddr pend vaddr =
  Some (if (j <? n)%nat then Err tt else Ok tt,
        map (fun i => Map4k (pa_add vaddr (4096 * Z.of_nat i)) (paddr + 4096 * Z.of_nat i))
            (seq 0 j)).
Proof.
  revert n fuel paddr vaddr.
  induction j as [|j IH]; intros n fuel paddr vaddr Hn Hp Hpw Hv Hin Hend Hj Hok Hfail;
    (destruct fuel as [|fuel]; [lia|]); cbn [map_memory].
  - specialize (Hfail ltac:(lia)). cbn [Z.of_nat] in Hfail.
    rewrite Z.mul_0_r, Z.add_0_r, pa_add_0 in Hfail by lia. rewrite Hfail.
    replace (0 <? n)%nat with true by (symmetry; apply Nat.ltb_lt; lia). reflexivity.
  - pose proof (Hok O ltac:(lia)) as H0. cbn [Z.of_nat] in H0.
    rewrite Z.mul_0_r, Z.add_0_r, pa_add_0 in H0 by lia. rewrite H0.
    rewrite (pa_add_small paddr 4096) by lia.
    destruct (Nat.eq_dec n 1) as [->|Hn2].
    + assert (j = O) by lia. subst j.
      rewrite (proj2 (Z.leb_le _ _)) by (simpl in Hend; lia).
      simpl. rewrite Z.add_0_r, pa_add_0 by lia. reflexivity.
    + rewrite (proj2 (Z.leb_gt _ _)) by (apply (Hin 1%nat); lia).
      rewrite (IH (n - 1)%nat fuel (paddr + 4096) (pa_add vaddr 4096)).
      * cbn [s2_cons app]. f_equal. f_equal.
        -- destruct (j <? n - 1)%nat eqn:E1, (S j <? n)%nat eqn:E2; try reflexivity;
             apply Nat.ltb_lt in E1 + apply Nat.ltb_ge in E1;
             apply Nat.ltb_lt in E2 + apply Nat.ltb_ge in E2; lia.
        -- cbn [seq map]. rewrite <- seq_shift, map_map.
           change (Z.of_nat 0) with 0. rewrite Z.mul_0_r, Z.add_0_r, pa_add_0 by lia. f_equal.
           apply map_ext. intro i. rewrite pa_add_pa_add. f_equal; [f_equal|]; lia.
      * lia.
      * lia.
      * lia.
      * unfold pa_add. apply Z.mod_pos_bound. unfold WORD. lia.
      * intros i Hi. replace (paddr + 4096 + 4096 * Z.of_nat i)
          with (paddr + 4096 * Z.of_nat (S i)) by lia. apply Hin. lia.
      * lia.
      * lia.
      * intros i Hi. rewrite pa_add_pa_add.
        replace (4096 + 4096 * Z.of_nat i) with (4096 * Z.of_nat (S i)) by lia.
        replace (paddr + 4096 + 4096 * Z.of_nat (S i - 1))
          with (paddr + 4096 * Z.of_nat (S i)) by lia.
        replace (paddr + 4096 + 4096 * Z.of_nat i)
          with (paddr + 4096 * Z.of_nat (S i)) by lia.
        apply Hok. lia.
      * intros Hj'. rewrite pa_add_pa_add.
        replace (4096 + 4096 * Z.of_nat j) with (4096 * Z.of_nat (S j)) by lia.
        replace (paddr + 4096 + 4096 * Z.of_nat j)
          with (paddr + 4096 * Z.of_nat (S j)) by lia.
        apply Hfail. lia.
Qed.

Lemma validate_loop_pages env fuel kaddr paddr pend n :
  (1 <= n <= fuel)%nat -> 0 <= paddr -> paddr + 4096 * Z.of_nat n < WORD ->
  0 <= kaddr < WORD ->
  (forall i, (1 <= i < n)%nat -> paddr + 4096 * Z.of_nat i < pend) ->
  pend <= paddr + 4096 * Z.of_nat n ->
  (forall i, (i < n)%nat ->
     validate_page_msr_fails env (paddr + 4096 * Z.of_nat i) = false /\
     pvalidate_fails env (pa_add kaddr (4096 * Z.of_nat i)) = false) ->
  validate_loop env fuel kaddr paddr pend =
  Some (Ok tt, flat_map (fun i => [ValidatePageMsr (paddr + 4096 * Z.of_nat i);
                                   PValidate (pa_add kaddr (4096 * Z.of_nat i))]) (seq 0 n)).
Proof.
  revert fuel kaddr paddr.
  induction n as [|n IH]; intros fuel kaddr paddr Hn Hp Hpw Hk Hin Hend Hok; [lia|].
  destruct fuel as [|fuel]; [lia|]. cbn [validate_loop].
  destruct (Hok O ltac:(lia)) as [H1 H2]. cbn [Z.of_nat] in H1, H2.
  rewrite Z.mul_0_r, Z.add_0_r in H1. rewrite Z.mul_0_r, pa_add_0 in H2 by lia.
  rewrite H1, H2. rewrite (pa_add_small paddr 4096) by lia.
  destruct (Nat.eq_dec n 0) as [->|Hn2].
  - rewrite (proj2 (Z.leb_le _ _)) by (simpl in Hend; lia).
    simpl. rewrite Z.add_0_r, pa_add_0 by lia. reflexivity.
  - rewrite (proj2 (Z.leb_gt _ _)) by (apply (Hin 1%nat); lia).
    rewrite (IH fuel (pa_add kaddr 4096) (paddr + 4096)).
    + cbn [s2_cons app]. f_equal. f_equal.
      cbn [seq flat_map app]. rewrite <- seq_shift.
      change (Z.of_nat 0) with 0. rewrite Z.mul_0_r, Z.add_0_r, pa_add_0 by lia.
      f_equal. f_equal.
      rewrite flat_map_concat_map, flat_map_concat_map, map_map. f_equal.
      apply map_ext. intro i. rewrite pa_add_pa_add.
      replace (4096 + 4096 * Z.of_nat i) with (4096 * Z.of_nat (S i)) by lia.
      replace (paddr + 4096 + 4096 * Z.of_nat i) with (paddr + 4096 * Z.of_nat (S i)) by lia.
      reflexivity.
    + lia.
    + lia.
    + lia.
    + unfold pa_add. apply Z.mod_pos_bound. unfold WORD. lia.
    + intros i Hi. replace (paddr + 4096 + 4096 * Z.of_nat i)
        with (paddr + 4096 * Z.of_nat (S i)) by lia. apply Hin. lia.
    + lia.
    + intros i Hi. rewrite pa_add_pa_add.
      replace (4096 + 4096 * Z.of_nat i) with (4096 * Z.of_nat (S i)) by lia.
      replace (paddr + 4096 + 4096 * Z.of_nat i)
        with (paddr + 4096 * Z.of_nat (S i)) by lia.
      apply Hok. lia.
Qed.

(** ** The mapping guard over a window of its own size *)

Lemma create_window env p al s :
  0 <= al <= 9 ->
  create env p (pa_add p (Z.shiftl PAGE_SIZE al)) al s =
  if p mod Z.shiftl PAGE_SIZE al =? 0 then
    let hg := (p mod PAGE_SIZE_2M =? 0) &&
              ((p + Z.shiftl PAGE_SIZE al) mod PAGE_SIZE_2M =? 0) in
    if map_fails env hg p (pa_add p (Z.shiftl PAGE_SIZE al)) then (Err Mapping, s)
    else (Ok {| mapping := p; huge := hg |},
          add_event (EvMap p (pa_add p (Z.shiftl PAGE_SIZE al)) hg) s)
  else (Panic, s).
Proof.
  intro Hal.
  assert (Hsz : Z.shiftl PAGE_SIZE al = 2 ^ (12 + al)).
  { unfold PAGE_SIZE. rewrite Z.shiftl_mul_pow2 by lia. rewrite Z.pow_add_r by lia.
    reflexivity. }
  assert (Hw : 2 ^ (12 + al) < WORD) by (unfold WORD; apply Z.pow_lt_mono_r; lia).
  assert (Hpos : 0 < 2 ^ (12 + al)) by (apply Z.pow_pos_nonneg; lia).
  assert (E1 : pa_add p (2 ^ (12 + al)) mod 2 ^ (12 + al) = p mod 2 ^ (12 + al)).
  { rewrite pa_add_mod_pow2 by lia.
    replace (p + 2 ^ (12 + al)) with (p + 1 * 2 ^ (12 + al)) by ring.
    apply Z.mod_add. lia. }
  assert (E2 : Z.land (pa_add p (2 ^ (12 + al))) (PAGE_SIZE_2M - 1) =
               (p + 2 ^ (12 + al)) mod PAGE_SIZE_2M).
  { change (PAGE_SIZE_2M - 1) with (2 ^ 21 - 1). change PAGE_SIZE_2M with (2 ^ 21).
    rewrite land_pow2_mod by lia. apply pa_add_mod_pow2. lia. }
  assert (E3 : Z.land p (PAGE_SIZE_2M - 1) = p mod PAGE_SIZE_2M).
  { change (PAGE_SIZE_2M - 1) with (2 ^ 21 - 1). change PAGE_SIZE_2M with (2 ^ 21).
    apply land_pow2_mod. lia. }
  unfold create, panic, fail, bind, modify, ret.
  rewrite !land_align_mask by lia. rewrite Hsz in *.
  rewrite pa_sub_add_small by lia. rewrite Z_mod_same_full, E1, E2, E3.
  cbv beta zeta. simpl negb.
  destruct (p mod 2 ^ (12 + al) =? 0); simpl negb; cbv iota; [|reflexivity].
  destruct (map_fails _ _ _ _); reflexivity.
Qed.

(** The failing entry of an aborted copy-on-write pass. *)
Lemma cow_loop_Err env l s r s' :
  cow_loop env l s = (Err r, s') ->
  exists pre x post s1 e,
    l = pre ++ x :: post /\ rmps (events s1) = rmps (events s) ++ pre /\
    set_read_only env (fst x) (snd x) s1 = (Err e, s') /\ r = FatalError e.
Proof.
  revert s. induction l as [|[p sz] l IH]; intros s H; simpl in H; [discriminate|].
  apply bind_Err in H as [H | (u & s1 & H1 & H)].
  - apply map_err_Err in H as (e & H & ->).
    exists [], (p, sz), l, s, e. rewrite app_nil_r. auto.
  - apply map_err_Ok in H1. destruct u. apply set_read_only_rmps in H1.
    apply IH in H as (pre & x & post & s2 & e & -> & Hr & Hx & ->).
    exists ((p, sz) :: pre), x, post, s2, e. split; [reflexivity|].
    split; [rewrite Hr, H1, <- app_assoc; reflexivity|]. auto.
Qed.

(** [set_read_only] entry by entry. *)
Lemma set_read_only_eq env paddr size s :
  set_read_only env paddr size s =
  if paddr mod page_size_bytes size =? 0 then
    let hg := PageSize_eqb size Huge in
    let s1 := add_event (EvMap paddr (pa_add paddr (page_size_bytes size)) hg) s in
    if map_fails env hg paddr (pa_add paddr (page_size_bytes size)) then (Err Mapping, s)
    else if rmp_fails env paddr size then (Err Rmp, s1)
    else (Ok tt, add_event (EvRmp paddr size) s1)
  else (Panic, s).
Proof.
  destruct size; unfold set_read_only, bind; cbn [page_size_bytes PageSize_eqb].
  - pose proof (create_window env paddr 0 s ltac:(lia)) as H.
    change (Z.shiftl PAGE_SIZE 0) with PAGE_SIZE in H.
    change VIRT_ALIGN_4K with 0. rewrite H. clear H.
    replace ((paddr mod PAGE_SIZE_2M =? 0) && ((paddr + PAGE_SIZE) mod PAGE_SIZE_2M =? 0))
      with false.
    + cbv beta zeta. destruct (paddr mod PAGE_SIZE =? 0); [|reflexivity].
      destruct (map_fails _ _ _ _); [reflexivity|].
      unfold rmp_set_read_only, virt_addr, fail, modify, ret. cbn [mapping].
      destruct (rmp_fails _ _ _); reflexivity.
    + symmetry. destruct (paddr mod PAGE_SIZE_2M =? 0) eqn:E2; [|reflexivity].
      apply Z.eqb_eq in E2. apply Z.eqb_neq.
      rewrite Z.add_mod, E2 by (unfold PAGE_SIZE_2M; lia). vm_compute. discriminate.
  - pose proof (create_window env paddr 9 s ltac:(lia)) as H.
    change (Z.shiftl PAGE_SIZE 9) with PAGE_SIZE_2M in H.
    change VIRT_ALIGN_2M with 9. rewrite H. clear H.
    cbv beta zeta. destruct (paddr mod PAGE_SIZE_2M =? 0) eqn:E; [|reflexivity].
    replace ((true && ((paddr + PAGE_SIZE_2M) mod PAGE_SIZE_2M =? 0))) with true.
    + destruct (map_fails _ _ _ _); [reflexivity|].
      unfold rmp_set_read_only, virt_addr, fail, modify, ret. cbn [mapping].
      destruct (rmp_fails _ _ _); reflexivity.
    + symmetry. apply Z.eqb_eq. apply Z.eqb_eq in E.
      replace (paddr + PAGE_SIZE_2M) with (paddr + 1 * PAGE_SIZE_2M) by ring.
      rewrite Z.mod_add by (unfold PAGE_SIZE_2M; lia). exact E.
Qed.

(** ** Failures of the frame copy *)

Lemma copy_loop_Err env m v n i zero acc e :
  copy_loop env m v n i zero acc = Err e ->
  e = InvalidAddress /\ exists k, i <= k < i + Z.of_nat n /\ read_fault env (v + k) = true.
Proof.
  revert i zero acc. induction n as [|n IH]; intros i zero acc H; cbn [copy_loop] in H;
    [discriminate|].
  destruct (read_fault env (v + i)) eqn:Ef.
  - injection H as <-. split; [reflexivity|]. exists i. split; [lia|exact Ef].
  - apply IH in H as [-> (k & Hk & Hf)]. split; [reflexivity|].
    exists k. split; [lia|exact Hf].
Qed.

(** ** The restore request, phase by phase *)

Lemma restore_pages_from_backup_eq env s :
  restore_pages_from_backup env s =
  match restore_loop env (backup_pages s) s with
  | (Ok _, s4) =>
      match zero_loop env (zero_pages s4) s4 with
      | (Ok _, s5) => (Ok tt, s5)
      | (Err e, s5) => (Err e, s5)
      | (Panic, s5) => (Panic, s5)
      end
  | (Err e, s4) => (Err e, s4)
  | (Panic, s4) => (Panic, s4)
  end.
Proof.
  unfold restore_pages_from_backup, bind, get. cbv beta iota.
  destruct (restore_loop env (backup_pages s) s) as [[u|e|] s4]; try reflexivity.
  destruct (zero_loop env (zero_pages s4) s4) as [[u'|e|] s5]; try reflexivity.
  rewrite clear_loop_Ok. reflexivity.
Qed.

(** ** The validation loop stopped by a failure *)

Lemma validate_loop_fail_gen env fuel kaddr paddr pend n j :
  (1 <= n <= fuel)%nat -> 0 <= paddr -> paddr + 4096 * Z.of_nat n < WORD ->
  0 <= kaddr < WORD ->
  (forall i, (1 <= i < n)%nat -> paddr + 4096 * Z.of_nat i < pend) ->
  pend <= paddr + 4096 * Z.of_nat n ->
  (j < n)%nat ->
  (forall i, (i < j)%nat ->
     validate_page_msr_fails env (paddr + 4096 * Z.of_nat i) = false /\
     pvalidate_fails env (pa_add kaddr (4096 * Z.of_nat i)) = false) ->
  validate_page_msr_fails env (paddr + 4096 * Z.of_nat j) = true \/
  pvalidate_fails env (pa_add kaddr (4096 * Z.of_nat j)) = true ->
  validate_loop env fuel kaddr paddr pend =
  Some (Err tt, flat_map (fun i => [ValidatePageMsr (paddr + 4096 * Z.of_nat i);
                                    PValidate (pa_add kaddr (4096 * Z.of_nat i))]) (seq 0 j) ++
                (if validate_page_msr_fails env (paddr + 4096 * Z.of_nat j) then []
                 else [ValidatePageMsr (paddr + 4096 * Z.of_nat j)])).
Proof.
  revert n fuel kaddr paddr.
  induction j as [|j IH]; intros n fuel kaddr paddr Hn Hp Hpw Hk Hin Hend Hj Hok Hfail;
    (destruct fuel as [|fuel]; [lia|]); cbn [validate_loop].
  - change (Z.of_nat 0) with 0 in Hfail |- *.
    rewrite Z.mul_0_r, Z.add_0_r in Hfail |- *. rewrite pa_add_0 in Hfail by lia.
    destruct (validate_page_msr_fails env paddr); [reflexivity|].
    destruct Hfail as [Hf|Hf]; [discriminate|]. rewrite Hf. reflexivity.
  - destruct (Hok O ltac:(lia)) as [H1 H2]. change (Z.of_nat 0) with 0 in H1, H2.
    rewrite Z.mul_0_r, Z.add_0_r in H1. rewrite Z.mul_0_r, pa_add_0 in H2 by lia.
    rewrite H1, H2. rewrite (pa_add_small paddr 4096) by lia.
    rewrite (proj2 (Z.leb_gt _ _)) by (apply (Hin 1%nat); lia).
    rewrite (IH (n - 1)%nat fuel (pa_add kaddr 4096) (paddr + 4096)).
    + cbn [s2_cons]. f_equal. f_equal.
      cbn [seq flat_map]. rewrite <- seq_shift.
      change (Z.of_nat 0) with 0. rewrite Z.mul_0_r, Z.add_0_r, pa_add_0 by lia.
      rewrite <- !app_assoc. cbn [app]. f_equal. f_equal.
      replace (paddr + 4096 + 4096 * Z.of_nat j) with (paddr + 4096 * Z.of_nat (S j)) by lia.
      f_equal.
      rewrite flat_map_concat_map, flat_map_concat_map, map_map. f_equal.
      apply map_ext. intro i. rewrite pa_add_pa_add.
      replace (4096 + 4096 * Z.of_nat i) with (4096 * Z.of_nat (S i)) by lia.
      replace (paddr + 4096 + 4096 * Z.of_nat i) with (paddr + 4096 * Z.of_nat (S i)) by lia.
      reflexivity.
    + lia.
    + lia.
    + lia.
    + unfold pa_add. apply Z.mod_pos_bound. unfold WORD. lia.
    + intros i Hi. replace (paddr + 4096 + 4096 * Z.of_nat i)
        with (paddr + 4096 * Z.of_nat (S i)) by lia. apply Hin. lia.
    + lia.
    + lia.
    + intros i Hi. rewrite pa_add_pa_add.
      replace (4096 + 4096 * Z.of_nat i) with (4096 * Z.of_nat (S i)) by lia.
      replace (paddr + 4096 + 4096 * Z.of_nat i)
        with (paddr + 4096 * Z.of_nat (S i)) by lia.
      apply Hok. lia.
    + rewrite pa_add_pa_add.
      replace (4096 + 4096 * Z.of_nat j) with (4096 * Z.of_nat (S j)) by lia.
      replace (paddr + 4096 + 4096 * Z.of_nat j)
        with (paddr + 4096 * Z.of_nat (S j)) by lia.
      exact Hfail.
Qed.

(** ** Errors of the restore phase *)

Lemma restore_page_Err env r s e s' : restore_page env r s = (Err e, s') -> e = Mapping.
Proof.
  unfold restore_page. destruct (writable_phys_addr env (phys_addr r)); cbn [negb];
    [|unfold ret; discriminate].
  intro H. apply bind_Err in H as [H | (g & s1 & _ & H)].
  - eapply create_Err. exact H.
  - unfold bind, modify, ret in H. discriminate.
Qed.

Lemma zero_page_Err env p s e s' : zero_page env p s = (Err e, s') -> e = Mapping.
Proof.
  unfold zero_page. destruct (writable_phys_addr env p); cbn [negb];
    [|unfold ret; discriminate].
  intro H. apply bind_Err in H as [H | (g & s1 & _ & H)].
  - eapply create_Err. exact H.
  - unfold bind, modify, ret in H. discriminate.
Qed.

Lemma restore_loop_Err env l s e s' :
  restore_loop env l s = (Err e, s') -> e = FatalError Mapping.
Proof.
  revert s. induction l as [|r l IH]; intros s H; cbn [restore_loop] in H;
    [unfold ret in H; discriminate|].
  apply bind_Err in H as [H | (u & s1 & _ & H)].
  - apply map_err_Err in H as (e0 & H & ->). apply restore_page_Err in H as ->. reflexivity.
  - eapply IH. exact H.
Qed.

Lemma zero_loop_Err env l s e s' :
  zero_loop env l s = (Err e, s') -> e = FatalError Mapping.
Proof.
  revert s. induction l as [|p l IH]; intros s H; cbn [zero_loop] in H;
    [unfold ret in H; discriminate|].
  apply bind_Err in H as [H | (u & s1 & _ & H)].
  - apply map_err_Err in H as (e0 & H & ->). apply zero_page_Err in H as ->. reflexivity.
  - eapply IH. exact H.
Qed.

Lemma pair_fst {A B} (p : A * B) (a : A) : fst p = a -> p = (a, snd p).
Proof. destruct p; simpl; intros ->; reflexivity. Qed.

(** * Claims *)

(** C3: a successful [backup_4k_page] appends exactly one record for the
    frame: to [BACKUP_PAGES], with the 4096 bytes read, and returns [true]
    exactly when some byte of the frame is non-zero; otherwise to
    [ZERO_PAGES] and returns [false]. Never to both. *)
Theorem backup_4k_page_classifies env paddr s b s' :
  backup_4k_page env paddr s = (Ok b, s') ->
  (b = true <-> exists i, 0 <= i < PAGE_SIZE /\ mem s (paddr + i) <> 0) /\
  (b = true ->
     backup_pages s' = backup_pages s ++
       [{| phys_addr := paddr; data := bytes_from (mem s) paddr (Z.to_nat PAGE_SIZE) |}] /\
     zero_pages s' = zero_pages s) /\
  (b = false -> backup_pages s' = backup_pages s /\ zero_pages s' = zero_pages s ++ [paddr]).
Proof.
  intro H. apply backup_4k_page_Ok in H. cbv zeta in H.
  destruct H as (_ & _ & _ & _ & _ & _ & Hb & Ht & Hf).
  split; [|split; assumption].
  rewrite Hb, bytes_from_exists, Z2Nat.id by (unfold PAGE_SIZE; lia).
  reflexivity.
Qed.

(** C3 at a frame that is zero except for its last byte: non-zero record. *)
Lemma backup_4k_page_classifies_witness :
  exists i, 0 <= i < PAGE_SIZE /\ mem (st_init last_byte_mem [] []) (0x1000 + i) <> 0.
Proof.
  assert (H : backup_4k_page env_ok 0x1000 (st_init last_byte_mem [] []) =
              (Ok true, snd (backup_4k_page env_ok 0x1000 (st_init last_byte_mem [] []))))
    by (apply pair_fst; vm_compute; reflexivity).
  destruct (backup_4k_page_classifies _ _ _ _ _ H) as [[Hb _] _].
  apply Hb. reflexivity.
Defined.

(** C4: with the flag set, [create_full_backup] succeeds and changes
    nothing (no frame copy, no mapping, same store); hence a
    [create_full_backup] that follows a successful one leaves the state as
    the first one left it. *)
Theorem create_full_backup_once env s :
  (backup_created s = true -> create_full_backup env s = (Ok tt, s)) /\
  (forall env' s1, create_full_backup env s = (Ok tt, s1) ->
     backup_created s1 = true /\ create_full_backup env' s1 = (Ok tt, s1)).
Proof.
  assert (Hset : forall e s0, backup_created s0 = true -> create_full_backup e s0 = (Ok tt, s0)).
  { intros e s0 Hc. unfold create_full_backup, bind, get. rewrite Hc. reflexivity. }
  split; [apply Hset|].
  intros env' s1 H.
  assert (Hc : backup_created s1 = true).
  { unfold create_full_backup in H. inv_ok H as s0 s2 H1 H.
    unfold get in H1; injection H1 as <- <-.
    destruct (backup_created s) eqn:E.
    - unfold ret in H; injection H as <-. exact E.
    - inv_ok H as tots s3 H1 H. inv_ok H as u s4 H2 H.
      unfold modify in H2; injection H2 as <- <-.
      unfold ret in H; injection H as <-. reflexivity. }
  split; [exact Hc|apply Hset; exact Hc].
Qed.

Lemma create_full_backup_once_witness :
  create_full_backup env_fault_2000
    (snd (create_full_backup env_ok (st_init zero_mem [(0x1000, Regular)] [])))
  = (Ok tt, snd (create_full_backup env_ok (st_init zero_mem [(0x1000, Regular)] []))).
Proof.
  apply (create_full_backup_once env_ok (st_init zero_mem [(0x1000, Regular)] [])).
  apply pair_fst. vm_compute. reflexivity.
Defined.

(** C4 fails as stated: after a failed [create_full_backup] the flag stays
    false, and a second call captures again, so two calls do not leave the
    store a single call leaves. Here the frame at 0x2000 cannot be read. *)
Lemma create_full_backup_twice_counterexample :
  let s0 := st_init zero_mem [(0x1000, Regular); (0x2000, Regular)] [] in
  let s1 := snd (create_full_backup env_fault_2000 s0) in
  let s2 := snd (create_full_backup env_fault_2000 s1) in
  zero_pages s1 = [0x1000] /\ zero_pages s2 = [0x1000; 0x1000].
Proof. vm_compute. split; reflexivity. Qed.

(** C5: if a frame copy fails during [create_full_backup], it returns that
    error at once: the final state is the one the failing copy left, the
    records appended before it remain, and the flag stays false. Both ways:
    (1) a failing [create_full_backup] stopped at a failing frame copy; (2)
    a run whose frame copies [pre] (in the order [create_full_backup] makes
    them) succeed and whose next copy [q] fails returns the error of [q],
    as [FatalError], in the state that copy left, with the records of
    [pre] kept and the flag false. *)
Theorem create_full_backup_error_aborts env s :
  (forall r s',
     create_full_backup env s = (Err r, s') ->
     backup_created s = false /\ backup_created s' = false /\
     exists paddr s1 e,
       store_ext s s1 /\ backup_4k_page env paddr s1 = (Err e, s') /\ r = FatalError e /\
       backup_pages s' = backup_pages s1 /\ zero_pages s' = zero_pages s1) /\
  (forall pre q post s1 e s',
     backup_created s = false ->
     flat_map entry_copies (iter_addresses (pages_to_backup s)) = pre ++ q :: post ->
     copy_frames env pre s = (Ok tt, s1) ->
     backup_4k_page env q s1 = (Err e, s') ->
     create_full_backup env s = (Err (FatalError e), s') /\ backup_created s' = false /\
     store_ext s s1 /\ backup_pages s' = backup_pages s1 /\ zero_pages s' = zero_pages s1).
Proof.
  split.
  - intros r s' H. unfold create_full_backup in H.
    apply bind_Err in H as [H | (s0 & s2 & H1 & H)]; [discriminate|].
    unfold get in H1; injection H1 as <- <-.
    destruct (backup_created s) eqn:Ec; [discriminate|].
    apply bind_Err in H as [H | (tots & s3 & H1 & H)].
    + apply backup_loop_Err in H as (q & s1 & e & Hext & Hq & ->).
      pose proof (backup_4k_page_Err _ _ _ _ _ Hq) as (Hb & Hz & Hc).
      pose proof Hext as (_ & _ & Hc1).
      split; [reflexivity|]. split; [congruence|].
      exists q, s1, e. split; [exact Hext|]. repeat split; auto.
    + apply bind_Err in H as [H | (u & s4 & H2 & H)]; discriminate.
  - intros pre q post s1 e s' Hc Hl Hpre Hq.
    pose proof (create_full_backup_frames env s Hc) as H.
    rewrite Hl, copy_frames_app in H. unfold bind in H. rewrite Hpre in H.
    cbn [copy_frames] in H. unfold bind in H. rewrite Hq in H.
    pose proof (copy_frames_Ok_ext _ _ _ _ _ Hpre) as Hext.
    pose proof (backup_4k_page_Err _ _ _ _ _ Hq) as (Hb & Hz & Hc1).
    pose proof Hext as (_ & _ & Hc2).
    split; [|split; [congruence|split; [exact Hext|split; assumption]]].
    destruct (create_full_backup env s) as [o s2].
    cbn [fst snd] in H. injection H as Ho <-.
    destruct o; cbn [discard] in Ho; congruence.
Qed.

Lemma create_full_backup_error_aborts_witness :
  create_full_backup env_fault_2000
    (st_init zero_mem [(0x1000, Regular); (0x2000, Regular)] []) =
  (Err (FatalError InvalidAddress),
   snd (backup_4k_page env_fault_2000 0x2000
          (snd (copy_frames env_fault_2000 [0x1000]
                  (st_init zero_mem [(0x1000, Regular); (0x2000, Regular)] []))))).
Proof.
  refine (proj1 (proj2 (create_full_backup_error_aborts env_fault_2000
                  (st_init zero_mem [(0x1000, Regular); (0x2000, Regular)] []))
           [0x1000] 0x2000 []
           (snd (copy_frames env_fault_2000 [0x1000]
                   (st_init zero_mem [(0x1000, Regular); (0x2000, Regular)] [])))
           InvalidAddress _ _ _ _ _)).
  - reflexivity.
  - vm_compute. reflexivity.
  - apply pair_fst. vm_compute. reflexivity.
  - apply pair_fst. vm_compute. reflexivity.
Defined.

(** C6: code 0 runs [create_full_backup], 1 [restore_pages_from_backup],
    2 [enable_copy_on_write]; every other code, the reserved 3 included,
    returns [unsupported_call] with the state unchanged; [params] is
    returned as it came and does not influence the outcome or the state. *)
Theorem backup_protocol_request_dispatch env params s :
  backup_protocol_request env 0 params s =
    (fst (create_full_backup env s), params, snd (create_full_backup env s)) /\
  backup_protocol_request env 1 params s =
    (fst (restore_pages_from_backup env s), params, snd (restore_pages_from_backup env s)) /\
  backup_protocol_request env 2 params s =
    (fst (enable_copy_on_write env s), params, snd (enable_copy_on_write env s)) /\
  backup_protocol_request env 3 params s = (Err unsupported_call, params, s) /\
  (forall request, request <> 0 -> request <> 1 -> request <> 2 ->
     backup_protocol_request env request params s = (Err unsupported_call, params, s)) /\
  (forall request params',
     fst (fst (backup_protocol_request env request params' s)) =
       fst (fst (backup_protocol_request env request params s)) /\
     snd (backup_protocol_request env request params' s) =
       snd (backup_protocol_request env request params s) /\
     snd (fst (backup_protocol_request env request params' s)) = params').
Proof.
  unfold backup_protocol_request.
  split; [destruct (create_full_backup env s); reflexivity|].
  split; [destruct (restore_pages_from_backup env s); reflexivity|].
  split; [destruct (enable_copy_on_write env s); reflexivity|].
  split; [reflexivity|].
  split.
  - intros request H0 H1 H2.
    unfold SVSM_FULL_BACKUP, SVSM_RESTORE, SVSM_ENABLE_COPY_ON_WRITE.
    apply Z.eqb_neq in H0, H1, H2. rewrite H0, H1, H2. reflexivity.
  - intros request params'.
    destruct (if request =? SVSM_FULL_BACKUP then _ else _). auto.
Qed.

Lemma backup_protocol_request_dispatch_witness :
  backup_protocol_request env_ok 42 {| rcx := 1; rdx := 2; r8 := 3 |} (st_init zero_mem [] [])
  = (Err unsupported_call, {| rcx := 1; rdx := 2; r8 := 3 |}, st_init zero_mem [] []).
Proof.
  apply (backup_protocol_request_dispatch env_ok _ _); lia.
Defined.

(** C7: [restore_page] and [zero_page] on a destination the oracle reports
    non-writable succeed and change nothing (no mapping, no byte written);
    the whole-frame store or the zero-fill happens only once the oracle
    has returned true. *)
Theorem restore_zero_skip_unwritable env r p s :
  (writable_phys_addr env (phys_addr r) = false -> restore_page env r s = (Ok tt, s)) /\
  (writable_phys_addr env p = false -> zero_page env p s = (Ok tt, s)) /\
  (forall s', restore_page env r s = (Ok tt, s') -> mem s' <> mem s ->
     writable_phys_addr env (phys_addr r) = true /\
     mem s' = write_frame (phys_addr r) (data r) (mem s)) /\
  (forall s', zero_page env p s = (Ok tt, s') -> mem s' <> mem s ->
     writable_phys_addr env p = true /\
     mem s' = zero_mem_region p (p + PAGE_SIZE) (mem s)).
Proof.
  split; [intro W; unfold restore_page; rewrite W; reflexivity|].
  split; [intro W; unfold zero_page; rewrite W; reflexivity|].
  split.
  - intros s' H Hne. unfold restore_page in H.
    destruct (writable_phys_addr env (phys_addr r)) eqn:W; simpl in H.
    + inv_ok H as g s1 H1 H. apply create_Ok in H1 as (_ & _ & _ & Hv & ->).
      inv_ok H as u s2 H2 H. unfold modify in H2; injection H2 as <- <-.
      unfold ret in H; injection H as <-. rewrite Hv. split; reflexivity.
    + unfold ret in H; injection H as <-. congruence.
  - intros s' H Hne. unfold zero_page in H.
    destruct (writable_phys_addr env p) eqn:W; simpl in H.
    + inv_ok H as g s1 H1 H. apply create_Ok in H1 as (_ & _ & _ & Hv & ->).
      inv_ok H as u s2 H2 H. unfold modify in H2; injection H2 as <- <-.
      unfold ret in H; injection H as <-. rewrite Hv. split; reflexivity.
    + unfold ret in H; injection H as <-. congruence.
Qed.

Lemma restore_zero_skip_unwritable_witness :
  restore_page env_ro {| phys_addr := 0x1000; data := repeat 0xAA 4096 |}
    (st_init zero_mem [] []) = (Ok tt, st_init zero_mem [] []) /\
  zero_page env_ro 0x1000 (st_init aa_mem [] []) = (Ok tt, st_init aa_mem [] []).
Proof.
  split.
  - apply (proj1 (restore_zero_skip_unwritable env_ro
                     {| phys_addr := 0x1000; data := repeat 0xAA 4096 |} 0x1000
                     (st_init zero_mem [] []))).
    reflexivity.
  - apply (proj1 (proj2 (restore_zero_skip_unwritable env_ro
                           {| phys_addr := 0x1000; data := [] |} 0x1000
                           (st_init aa_mem [] [])))).
    reflexivity.
Defined.

(** C9: [PerCPUPageMappingGuard::create] panics exactly when the size, the
    start or the end is not aligned to [PAGE_SIZE << alignment], and then
    maps nothing; in particular [set_read_only] on a [Huge] entry whose base
    is not 2 MiB aligned panics before any mapping is made. *)
Theorem create_asserts_alignment env paddr_start paddr_end alignment s :
  0 <= alignment ->
  (fst (create env paddr_start paddr_end alignment s) = Panic <->
     ~ (pa_sub paddr_end paddr_start mod Z.shiftl PAGE_SIZE alignment = 0 /\
        paddr_start mod Z.shiftl PAGE_SIZE alignment = 0 /\
        paddr_end mod Z.shiftl PAGE_SIZE alignment = 0)) /\
  (fst (create env paddr_start paddr_end alignment s) = Panic ->
     snd (create env paddr_start paddr_end alignment s) = s) /\
  (forall paddr, paddr mod PAGE_SIZE_2M <> 0 -> set_read_only env paddr Huge s = (Panic, s)).
Proof.
  intro Hal.
  assert (Hc : forall a b al, 0 <= al ->
            (fst (create env a b al s) = Panic <->
               ~ (pa_sub b a mod Z.shiftl PAGE_SIZE al = 0 /\
                  a mod Z.shiftl PAGE_SIZE al = 0 /\ b mod Z.shiftl PAGE_SIZE al = 0)) /\
            (fst (create env a b al s) = Panic -> snd (create env a b al s) = s)).
  { intros a b al Hal'. unfold create, panic, fail, bind, modify, ret.
    rewrite !land_align_mask by exact Hal'.
    destruct (pa_sub b a mod Z.shiftl PAGE_SIZE al =? 0) eqn:E1; simpl;
      [|apply Z.eqb_neq in E1; split; [split; [tauto|reflexivity]|reflexivity]].
    destruct (a mod Z.shiftl PAGE_SIZE al =? 0) eqn:E2; simpl;
      [|apply Z.eqb_neq in E2; split; [split; [tauto|reflexivity]|reflexivity]].
    destruct (b mod Z.shiftl PAGE_SIZE al =? 0) eqn:E3; simpl;
      [|apply Z.eqb_neq in E3; split; [split; [tauto|reflexivity]|reflexivity]].
    apply Z.eqb_eq in E1, E2, E3.
    destruct (map_fails _ _ _ _); simpl;
      (split; [split; [discriminate|tauto]|discriminate]). }
  split; [apply Hc; exact Hal|]. split; [apply Hc; exact Hal|].
  intros paddr Hp.
  assert (Hcr : create env paddr (pa_add paddr PAGE_SIZE_2M) VIRT_ALIGN_2M s = (Panic, s)).
  { destruct (Hc paddr (pa_add paddr PAGE_SIZE_2M) VIRT_ALIGN_2M) as [Hiff Hs];
      [unfold VIRT_ALIGN_2M; lia|].
    rewrite shiftl_align_2M in Hiff.
    assert (Hpanic : fst (create env paddr (pa_add paddr PAGE_SIZE_2M) VIRT_ALIGN_2M s) = Panic)
      by (apply Hiff; tauto).
    rewrite (surjective_pairing (create _ _ _ _ _)), Hpanic, (Hs Hpanic). reflexivity. }
  unfold set_read_only, bind. rewrite Hcr. reflexivity.
Qed.

Lemma create_asserts_alignment_witness :
  set_read_only env_ok 0x201000 Huge (st_init zero_mem [] []) =
  (Panic, st_init zero_mem [] []).
Proof.
  apply (create_asserts_alignment env_ok 0 0 0 (st_init zero_mem [] [])).
  - lia.
  - vm_compute. discriminate.
Defined.

(** C10: [Set::iter_addresses] yields exactly the pairs present in the set
    (for any history of insertions and removals from [Set::new()]), each
    once, in strictly ascending order of the pair; [create_full_backup]
    performs its frame copies entry by entry in that order, and
    [enable_copy_on_write] write-protects the entries in that order. *)
Theorem iter_addresses_ascending ops :
  StronglySorted pair_lt (iter_addresses (run_ops ops)) /\
  NoDup (iter_addresses (run_ops ops)) /\
  (forall x, In x (iter_addresses (run_ops ops)) <-> present_after ops x = true) /\
  (forall env s s', pages_to_backup s = run_ops ops -> backup_created s = false ->
     create_full_backup env s = (Ok tt, s') ->
     copies (events s') =
       copies (events s) ++ flat_map entry_copies (iter_addresses (run_ops ops))) /\
  (forall env s s', pages_to_backup s = run_ops ops ->
     enable_copy_on_write env s = (Ok tt, s') ->
     rmps (events s') = rmps (events s) ++ iter_addresses (run_ops ops)).
Proof.
  destruct (fold_ops_spec ops [] (fun _ => false)) as [Hs Hin].
  - constructor.
  - intro x. simpl. split; [tauto|discriminate].
  - unfold iter_addresses, run_ops, set_new, present_after.
    split; [exact Hs|]. split; [apply sorted_NoDup; exact Hs|].
    split; [exact Hin|]. split.
    + intros env s s' Ht Hc H. apply create_full_backup_copies in H; [|exact Hc].
      rewrite H, Ht. reflexivity.
    + intros env s s' Ht H. apply enable_copy_on_write_rmps in H.
      rewrite H, Ht. reflexivity.
Qed.

Lemma iter_addresses_ascending_witness :
  copies (events (snd (create_full_backup env_ok
                        (st_init zero_mem (run_ops ops_example) []))))
  = flat_map entry_copies [(0x1000, Regular); (0x1000, Huge); (0x3000, Regular)].
Proof.
  rewrite (proj1 (proj2 (proj2 (proj2 (iter_addresses_ascending ops_example))))
             env_ok (st_init zero_mem (run_ops ops_example) [])
             (snd (create_full_backup env_ok (st_init zero_mem (run_ops ops_example) []))));
    [| reflexivity | reflexivity | apply pair_fst; vm_compute; reflexivity].
  vm_compute. reflexivity.
Defined.

(** C1 (the code at a huge page): [backup_page] on [(0x200000, Huge)]
    invokes [backup_4k_page] 512 times, but on 0x200000 twice, and never
    on 0x3FF000, the last 4 KiB frame of the huge page: [start_addr] is
    advanced to [paddr + i * PAGE_SIZE] after the copy of iteration [i]. *)
Theorem backup_page_huge_frames_code :
  let s1 := snd (create_full_backup env_ok (st_init zero_mem [(0x200000, Huge)] [])) in
  fst (create_full_backup env_ok (st_init zero_mem [(0x200000, Huge)] [])) = Ok tt /\
  length (copies (events s1)) = 512%nat /\
  firstn 3 (copies (events s1)) = [0x200000; 0x200000; 0x201000] /\
  count_occ Z.eq_dec (copies (events s1)) 0x200000 = 2%nat /\
  existsb (Z.eqb 0x3FF000) (copies (events s1)) = false.
Proof. vm_compute. repeat split; reflexivity. Qed.

(** C8 fails as stated: the loop over [PAGES_TO_CLEAR] in
    [restore_pages_from_backup] has an empty body (a TODO), so a page
    registered only there keeps its contents. *)
Lemma restore_pages_to_clear_counterexample :
  fst (restore_pages_from_backup env_ok (st_init aa_mem [] [(0x1000, Regular)])) = Ok tt /\
  mem (snd (restore_pages_from_backup env_ok (st_init aa_mem [] [(0x1000, Regular)]))) 0x1000
  = 0xAA.
Proof. vm_compute. split; reflexivity. Qed.

(** C8, as the code has it: [restore_pages_from_backup] iterates
    [PAGES_TO_CLEAR] without zero-filling anything: whatever its outcome, a
    byte outside every frame named by a non-zero or a zero record, in
    particular a byte of a page registered only in [PAGES_TO_CLEAR], keeps
    its value. *)
Theorem restore_pages_from_backup_clear_noop env s o s' a :
  restore_pages_from_backup env s = (o, s') ->
  (forall r, In r (backup_pages s) -> ~ (phys_addr r <= a < phys_addr r + PAGE_SIZE)) ->
  (forall p, In p (zero_pages s) -> ~ (p <= a < p + PAGE_SIZE)) ->
  mem s' a = mem s a.
Proof.
  intros H Hb Hz.
  enough (K : keeps a s s') by (destruct K; assumption).
  revert H. unfold restore_pages_from_backup.
  apply bind_inv; [apply keeps_trans|intros o1 s1 Hg; injection Hg as _ <-; apply keeps_refl|].
  intros s0 s1 Hg o2 s2 H. injection Hg as <- <-. revert H.
  apply bind_inv; [apply keeps_trans|intros o1 s1 H1; eapply restore_loop_keeps; eauto|].
  intros u s3 H3 o4 s4 H.
  pose proof (restore_loop_keeps env _ _ _ _ a Hb H3) as (_ & _ & Hz3 & _). revert H.
  apply bind_inv; [apply keeps_trans|intros o1 s1 Hg; injection Hg as _ <-; apply keeps_refl|].
  intros s5 s6 Hg o7 s7 H. injection Hg as <- <-. revert H.
  apply bind_inv; [apply keeps_trans| |].
  { intros o1 s1 H1. eapply zero_loop_keeps; [|exact H1]. rewrite Hz3. exact Hz. }
  intros u' s8 _ o9 s9 H. revert H.
  apply bind_inv; [apply keeps_trans|intros o1 s1 Hg; injection Hg as _ <-; apply keeps_refl|].
  intros s10 s11 Hg o12 s12 H. injection Hg as <- <-.
  unfold bind in H. rewrite clear_loop_Ok in H. unfold ret in H.
  injection H as _ <-. apply keeps_refl.
Qed.

Lemma restore_pages_from_backup_clear_noop_witness :
  mem (snd (restore_pages_from_backup env_ok (st_init aa_mem [] [(0x1000, Regular)]))) 0x1000
  = mem (st_init aa_mem [] [(0x1000, Regular)]) 0x1000.
Proof.
  apply (restore_pages_from_backup_clear_noop env_ok (st_init aa_mem [] [(0x1000, Regular)])
           (Ok tt)).
  - apply pair_fst. vm_compute. reflexivity.
  - intros r [].
  - intros p [].
Defined.

(** C2 fails as stated: the round trip does not hold for every store in
    which [create_full_backup] succeeds. A first full backup of
    [{0x1000, 0x2000}] faults on the page at 0x2000 after it has recorded
    the then all-zero frame at 0x1000 as a zero record. The guest then
    writes 0xAA over the frame at 0x1000 and a second full backup succeeds,
    capturing it as a non-zero record. With no mutation at all, [restore]
    succeeds and still leaves 0 at 0x1000: the stale zero record is
    replayed after the non-zero one. *)
Lemma restore_round_trip_counterexample :
  let s_a := snd (create_full_backup env_fault_2000
                    (st_init zero_mem [(0x1000, Regular); (0x2000, Regular)] [])) in
  let s_b := set_mem aa_mem s_a in
  let s_c := snd (create_full_backup env_ok s_b) in
  fst (create_full_backup env_ok s_b) = Ok tt /\
  fst (restore_pages_from_backup env_ok s_c) = Ok tt /\
  mem s_c 0x1000 = 0xAA /\
  mem (snd (restore_pages_from_backup env_ok s_c)) 0x1000 = 0.
Proof.
  vm_compute. repeat split.
Qed.

(** C2 (amended): starting from an empty snapshot store whose created flag
    is false, if [create_full_backup] succeeds on a registered set of
    [Regular] entries, the guest then changes only bytes of registered
    frames and only on frames writable at restore time, and
    [restore_pages_from_backup] succeeds, then every byte of every
    registered frame holds its value at capture time again. *)
Theorem restore_round_trip env_b env_r s0 s1 mem2 s3 :
  backup_pages s0 = [] -> zero_pages s0 = [] -> backup_created s0 = false ->
  (forall e, In e (pages_to_backup s0) -> snd e = Regular) ->
  create_full_backup env_b s0 = (Ok tt, s1) ->
  (forall a, mem2 a <> mem s0 a ->
     exists q, In (q, Regular) (pages_to_backup s0) /\ q <= a < q + PAGE_SIZE /\
               writable_phys_addr env_r q = true) ->
  restore_pages_from_backup env_r (set_mem mem2 s1) = (Ok tt, s3) ->
  forall a q, In (q, Regular) (pages_to_backup s0) -> q <= a < q + PAGE_SIZE ->
  mem s3 a = mem s0 a.
Proof.
  intros Hbp Hzp Hcr Hreg Hfb Hmut Hrs a q Hq Ha.
  unfold create_full_backup in Hfb.
  inv_ok Hfb as g0 g1 Hg Hfb. unfold get in Hg; injection Hg as <- <-.
  rewrite Hcr in Hfb.
  inv_ok Hfb as x s2 Hloop Hfb. inv_ok Hfb as u s2' Hset Hfb.
  unfold modify in Hset; injection Hset as <- <-.
  unfold ret in Hfb; injection Hfb as <-.
  destruct (backup_loop_capture _ _ _ _ _ _ _ Hloop) as (Hcap & Hm2 & _ & Hcov).
  { unfold iter_addresses. exact Hreg. }
  { unfold captured. rewrite Hbp, Hzp. split; intros ? []. }
  unfold iter_addresses in Hcov.
  destruct Hcap as [Hcb Hcz].
  unfold restore_pages_from_backup in Hrs.
  inv_ok Hrs as h0 h1 Hg Hrs. unfold get in Hg; injection Hg as <- <-.
  inv_ok Hrs as u s4 Hl1 Hrs.
  inv_ok Hrs as h0 h1 Hg Hrs. unfold get in Hg; injection Hg as <- <-.
  inv_ok Hrs as u' s5 Hl2 Hrs.
  inv_ok Hrs as h0 h1 Hg Hrs. unfold get in Hg; injection Hg as <- <-.
  inv_ok Hrs as u'' s6 Hc Hrs. rewrite clear_loop_Ok in Hc. injection Hc as Hc.
  unfold ret in Hrs; injection Hrs as Hrs. subst s6 s3. destruct u, u'.
  destruct (restore_loop_Ok_val _ _ _ _ a (mem s0 a) Hl1) as (Hss4 & Hm4 & Hex4).
  { intros r Hr Hw. rewrite (Hcb r Hr).
    apply andb_prop in Hw as [_ Hw]. unfold covers_b in Hw.
    apply andb_prop in Hw as [Hw1 Hw2]. apply Z.leb_le in Hw1. apply Z.ltb_lt in Hw2.
    rewrite nth_bytes_from.
    - f_equal. lia.
    - rewrite Z2Nat.id by (unfold PAGE_SIZE; lia). lia. }
  destruct Hss4 as (_ & Hz4 & _).
  destruct (zero_loop_Ok_val _ _ _ _ a (mem s0 a) Hl2) as (_ & Hm5 & Hex5).
  { intros p Hp Hw. rewrite Hz4 in Hp.
    apply andb_prop in Hw as [_ Hw]. unfold covers_b in Hw.
    apply andb_prop in Hw as [Hw1 Hw2]. apply Z.leb_le in Hw1. apply Z.ltb_lt in Hw2.
    replace a with (p + (a - p)) by lia. symmetry. apply (Hcz p Hp). lia. }
  assert (Hkeep : mem s4 a = mem s0 a -> mem s5 a = mem s0 a)
    by (intro H4; destruct Hm5 as [Hm5|Hm5]; [exact Hm5|rewrite Hm5; exact H4]).
  destruct (Z.eq_dec (mem2 a) (mem s0 a)) as [E|E].
  - apply Hkeep. destruct Hm4 as [Hm4|Hm4]; [exact Hm4|]. rewrite Hm4. exact E.
  - destruct (Hmut a E) as (q' & Hq' & Ha' & Hw).
    assert (Hcv : writable_phys_addr env_r q' && covers_b q' a = true).
    { rewrite Hw. unfold covers_b.
      rewrite (proj2 (Z.leb_le _ _)), (proj2 (Z.ltb_lt _ _)) by lia. reflexivity. }
    destruct (Hcov q' Hq') as [(r & Hr & Hpr)|Hz].
    + apply Hkeep, Hex4. exists r. split; [exact Hr|]. rewrite Hpr. exact Hcv.
    + apply Hex5. exists q'. split; [|exact Hcv]. rewrite Hz4. exact Hz.
Qed.

Lemma restore_round_trip_witness :
  mem (snd (restore_pages_from_backup env_ok
              (set_mem zero_mem
                 (snd (create_full_backup env_ok (st_init aa_mem [(0x1000, Regular)] []))))))
      0x1FFF
  = mem (st_init aa_mem [(0x1000, Regular)] []) 0x1FFF.
Proof.
  refine (restore_round_trip env_ok env_ok (st_init aa_mem [(0x1000, Regular)] [])
           (snd (create_full_backup env_ok (st_init aa_mem [(0x1000, Regular)] [])))
           zero_mem
           (snd (restore_pages_from_backup env_ok
                   (set_mem zero_mem
                      (snd (create_full_backup env_ok
                              (st_init aa_mem [(0x1000, Regular)] []))))))
           _ _ _ _ _ _ _ 0x1FFF 0x1000 _ _).
  - reflexivity.
  - reflexivity.
  - reflexivity.
  - intros e [<-|[]]. reflexivity.
  - apply pair_fst. vm_compute. reflexivity.
  - intros a Hne. exists 0x1000. split; [left; reflexivity|].
    unfold zero_mem, aa_mem in Hne. cbn [mem st_init] in Hne.
    destruct ((0x1000 <=? a) && (a <? 0x2000)) eqn:E; [|contradiction].
    apply andb_prop in E as [E1 E2]. apply Z.leb_le in E1. apply Z.ltb_lt in E2.
    split; [unfold PAGE_SIZE; lia|reflexivity].
  - apply pair_fst. vm_compute. reflexivity.
  - left. reflexivity.
  - unfold PAGE_SIZE. lia.
Defined.

(** * Further properties *)

(** ** kernel/src/mm/set.rs *)

(** After [insert_addr(value, size)], [contains_addr] answers true for the
    inserted pair and, for every other pair, what it answered before. *)
Theorem insert_addr_contains t value size v s :
  contains_addr (insert_addr t value size) v s =
  pair_eqb (v, s) (value, size) || contains_addr t v s.
Proof.
  apply eq_true_iff_eq. rewrite orb_true_iff, !contains_addr_In, pair_eqb_spec.
  unfold insert_addr. rewrite btree_insert_In. tauto.
Qed.

(** On a set kept in [BTreeSet] order, [remove_addr(value, size)] returns
    whether the pair was present; afterwards the pair is absent and every
    other pair is present exactly when it was before. *)
Theorem remove_addr_contains t value size :
  StronglySorted pair_lt t ->
  fst (remove_addr t value size) = contains_addr t value size /\
  forall v s, contains_addr (snd (remove_addr t value size)) v s =
              negb (pair_eqb (v, s) (value, size)) && contains_addr t v s.
Proof.
  intro Hs. split; [apply btree_remove_fst|].
  intros v s. apply eq_true_iff_eq.
  rewrite andb_true_iff, negb_true_iff, !contains_addr_In.
  unfold remove_addr. rewrite btree_remove_In by exact Hs.
  rewrite <- not_true_iff_false, pair_eqb_spec. tauto.
Qed.

Lemma remove_addr_contains_witness :
  fst (remove_addr [(0x1000, Regular); (0x1000, Huge)] 0x1000 Huge) =
    contains_addr [(0x1000, Regular); (0x1000, Huge)] 0x1000 Huge /\
  contains_addr (snd (remove_addr [(0x1000, Regular); (0x1000, Huge)] 0x1000 Huge))
    0x1000 Regular = true.
Proof.
  destruct (remove_addr_contains [(0x1000, Regular); (0x1000, Huge)] 0x1000 Huge)
    as [H1 H2].
  - repeat constructor.
  - split; [exact H1|]. rewrite H2. reflexivity.
Defined.

(** On a set kept in [BTreeSet] order, [insert_addr] grows [size()] by one
    exactly when the pair was absent, and [remove_addr] shrinks it by one
    exactly when the pair was present; otherwise the size is unchanged. *)
Theorem set_size_insert_remove t value size :
  StronglySorted pair_lt t ->
  set_size (insert_addr t value size) =
    (set_size t + if contains_addr t value size then 0 else 1)%nat /\
  set_size t =
    (set_size (snd (remove_addr t value size)) +
     if contains_addr t value size then 1 else 0)%nat.
Proof.
  intro Hs. unfold set_size, insert_addr, remove_addr, contains_addr. split.
  - apply btree_insert_length. exact Hs.
  - symmetry. apply btree_remove_length.
Qed.

Lemma set_size_insert_remove_witness :
  set_size (insert_addr [(0x1000, Regular); (0x1000, Huge)] 0x2000 Regular) = 3%nat /\
  set_size [(0x1000, Regular); (0x1000, Huge)] =
    S (set_size (snd (remove_addr [(0x1000, Regular); (0x1000, Huge)] 0x1000 Huge))).
Proof.
  destruct (set_size_insert_remove [(0x1000, Regular); (0x1000, Huge)] 0x2000 Regular)
    as [H1 _]; [repeat constructor|].
  destruct (set_size_insert_remove [(0x1000, Regular); (0x1000, Huge)] 0x1000 Huge)
    as [_ H2]; [repeat constructor|].
  split; [rewrite H1; reflexivity|]. rewrite H2 at 1. simpl. reflexivity.
Defined.

(** ** kernel/src/mm/ptguards.rs *)

(** [create_4k(paddr)] panics exactly when [paddr] is not 4 KiB aligned;
    otherwise it asks for a 4 KiB (never a 2 MiB) mapping of
    [paddr .. paddr + 4096] and either fails with the mapping error,
    changing nothing, or returns a guard whose window starts at [paddr]. *)
Theorem create_4k_spec env paddr s :
  create_4k env paddr s =
  if paddr mod PAGE_SIZE =? 0 then
    if map_fails env false paddr (pa_add paddr PAGE_SIZE) then (Err Mapping, s)
    else (Ok {| mapping := paddr; huge := false |},
          add_event (EvMap paddr (pa_add paddr PAGE_SIZE) false) s)
  else (Panic, s).
Proof.
  unfold create_4k. pose proof (create_window env paddr 0 s ltac:(lia)) as H.
  change (Z.shiftl PAGE_SIZE 0) with PAGE_SIZE in H. rewrite H. clear H.
  replace ((paddr mod PAGE_SIZE_2M =? 0) && ((paddr + PAGE_SIZE) mod PAGE_SIZE_2M =? 0))
    with false; [reflexivity|].
  symmetry. destruct (paddr mod PAGE_SIZE_2M =? 0) eqn:E2; [|reflexivity].
  apply Z.eqb_eq in E2. apply Z.eqb_neq.
  rewrite Z.add_mod, E2 by (unfold PAGE_SIZE_2M; lia). vm_compute. discriminate.
Qed.

(** [set_read_only(paddr, size)] panics exactly when [paddr] is not aligned
    to the entry's size; otherwise it maps the whole entry (a 2 MiB mapping
    for a [Huge] entry, a 4 KiB one for a [Regular] entry), and then either
    stops with the mapping error, stops with the RMP error after the
    mapping, or write-protects the entry at its window, which starts at
    [paddr]. *)
Theorem set_read_only_spec env paddr size s :
  set_read_only env paddr size s =
  if paddr mod page_size_bytes size =? 0 then
    let hg := PageSize_eqb size Huge in
    let s1 := add_event (EvMap paddr (pa_add paddr (page_size_bytes size)) hg) s in
    if map_fails env hg paddr (pa_add paddr (page_size_bytes size)) then (Err Mapping, s)
    else if rmp_fails env paddr size then (Err Rmp, s1)
    else (Ok tt, add_event (EvRmp paddr size) s1)
  else (Panic, s).
Proof. exact (set_read_only_eq env paddr size s). Qed.

(** ** kernel/src/protocols/backup.rs *)

(** A failed [backup_4k_page] appends no record and leaves guest memory
    alone. Its error is [Mapping] when the guard could not be created (no
    frame taken), [Mem] when no frame was free, or [InvalidAddress] when a
    byte of the frame could not be read; in that last case the frame taken
    for the copy is not given back. *)
Theorem backup_4k_page_Err_cases env paddr s e s' :
  backup_4k_page env paddr s = (Err e, s') ->
  backup_pages s' = backup_pages s /\ zero_pages s' = zero_pages s /\ mem s' = mem s /\
  ((e = Mapping /\ free_frames s' = free_frames s) \/
   (e = Mem /\ free_frames s = O /\ free_frames s' = O) \/
   (e = InvalidAddress /\ free_frames s = S (free_frames s') /\
    exists i, 0 <= i < PAGE_SIZE /\ read_fault env (paddr + i) = true)).
Proof.
  unfold backup_4k_page. intro H.
  remember (Z.to_nat PAGE_SIZE) as N eqn:HN.
  apply bind_Err in H as [H | (u & s1 & H1 & H)]; [discriminate|].
  unfold modify in H1; injection H1 as <- <-.
  apply bind_Err in H as [H | (g & s2 & H1 & H)].
  { pose proof (create_Err _ _ _ _ _ _ _ H) as ->.
    apply create_not_Ok in H; [|congruence]. subst s'. cbn.
    split; [reflexivity|]. split; [reflexivity|]. split; [reflexivity|].
    left. auto. }
  apply create_Ok in H1 as (_ & _ & _ & Hv & ->).
  apply bind_Err in H as [H | (u & s3 & H1 & H)].
  { unfold try_new_uninit in H. destruct (free_frames _) eqn:Ef; [|discriminate].
    injection H as <- <-. cbn in Ef |- *.
    split; [reflexivity|]. split; [reflexivity|]. split; [reflexivity|].
    right; left. auto. }
  unfold try_new_uninit in H1. destruct (free_frames _) as [|n] eqn:Ef; [discriminate|].
  injection H1 as <- <-. cbn in Ef.
  apply bind_Err in H as [H | (s4 & s5 & H1 & H)]; [discriminate|].
  unfold get in H1; injection H1 as <- <-.
  apply bind_Err in H as [H | (r & s6 & H1 & H)].
  - unfold lift_outcome in H. injection H as Hc <-. rewrite Hv in Hc.
    apply copy_loop_Err in Hc as [-> (k & Hk & Hf)]. cbn.
    split; [reflexivity|]. split; [reflexivity|]. split; [reflexivity|].
    right; right. split; [reflexivity|]. split; [first [exact Ef|reflexivity]|].
    exists k. split; [|exact Hf].
    rewrite HN, Z2Nat.id in Hk by (unfold PAGE_SIZE; lia). lia.
  - destruct r as [[|] page].
    + apply bind_Err in H as [H | (u & s7 & _ & H)]; [discriminate|].
      apply bind_Err in H as [H | (u' & s8 & _ & H)]; discriminate.
    + apply bind_Err in H as [H | (u & s7 & _ & H)]; discriminate.
Qed.

Lemma backup_4k_page_Err_cases_witness :
  free_frames (st_init zero_mem [] []) =
    S (free_frames (snd (backup_4k_page env_fault_2000 0x2000 (st_init zero_mem [] [])))).
Proof.
  assert (H : backup_4k_page env_fault_2000 0x2000 (st_init zero_mem [] []) =
              (Err InvalidAddress,
               snd (backup_4k_page env_fault_2000 0x2000 (st_init zero_mem [] []))))
    by (apply pair_fst; vm_compute; reflexivity).
  destruct (backup_4k_page_Err_cases _ _ _ _ _ H)
    as (_ & _ & _ & [[E _]|[[E _]|(_ & Hf & _)]]); [discriminate|discriminate|exact Hf].
Defined.

(** A successful [backup_page] reports [(backed_up, skipped)] with
    [backed_up + skipped] the entry's size (4096 or 2 MiB); [backed_up] is
    4096 bytes per record it appended to [BACKUP_PAGES], [skipped] 4096
    bytes per record it appended to [ZERO_PAGES], and one frame was taken
    from the allocator per [BACKUP_PAGES] record. *)
Theorem backup_page_tally env paddr size s b k s' :
  backup_page env paddr size s = (Ok (b, k), s') ->
  b + k = page_size_bytes size /\
  (length (backup_pages s) <= length (backup_pages s'))%nat /\
  (length (zero_pages s) <= length (zero_pages s'))%nat /\
  b = PAGE_SIZE * Z.of_nat (length (backup_pages s') - length (backup_pages s)) /\
  k = PAGE_SIZE * Z.of_nat (length (zero_pages s') - length (zero_pages s)) /\
  free_frames s = (free_frames s' + (length (backup_pages s') - length (backup_pages s)))%nat.
Proof.
  intro H. apply backup_page_counts in H as (nb & nz & Hb & Hz & Hf & Eb & Ek & Hs).
  rewrite Hb, Hz. replace (length (backup_pages s) + nb - length (backup_pages s))%nat with nb
    by lia.
  replace (length (zero_pages s) + nz - length (zero_pages s))%nat with nz by lia.
  repeat split; try lia.
Qed.

Lemma backup_page_tally_witness :
  4096 + 0 = page_size_bytes Regular /\
  (length (backup_pages (st_init last_byte_mem [] [])) <=
   length (backup_pages (snd (backup_page env_ok 0x1000 Regular
                                (st_init last_byte_mem [] [])))))%nat.
Proof.
  assert (H : backup_page env_ok 0x1000 Regular (st_init last_byte_mem [] []) =
              (Ok (4096, 0),
               snd (backup_page env_ok 0x1000 Regular (st_init last_byte_mem [] []))))
    by (apply pair_fst; vm_compute; reflexivity).
  destruct (backup_page_tally _ _ _ _ _ _ _ H) as (H1 & H2 & _).
  split; [exact H1|exact H2].
Defined.

(** A [create_full_backup] that runs (flag false) and succeeds sets the
    flag and appends, over [BACKUP_PAGES] and [ZERO_PAGES] together, as
    many records as the registered entries hold 4 KiB units (one for a
    [Regular] entry, 512 for a [Huge] one; these are not 512 distinct
    frames, see C1). It takes one frame from the allocator per
    [BACKUP_PAGES] record. *)
Theorem create_full_backup_counts env s s' :
  backup_created s = false ->
  create_full_backup env s = (Ok tt, s') ->
  backup_created s' = true /\
  (length (backup_pages s) <= length (backup_pages s'))%nat /\
  (length (zero_pages s) <= length (zero_pages s'))%nat /\
  PAGE_SIZE * Z.of_nat ((length (backup_pages s') - length (backup_pages s)) +
                        (length (zero_pages s') - length (zero_pages s))) =
    total_bytes (pages_to_backup s) /\
  free_frames s = (free_frames s' + (length (backup_pages s') - length (backup_pages s)))%nat.
Proof.
  intros Hc H. unfold create_full_backup in H.
  inv_ok H as s0 s1 H1 H. unfold get in H1; injection H1 as <- <-. rewrite Hc in H.
  inv_ok H as x s2 H1 H. inv_ok H as u s3 H2 H.
  unfold modify in H2; injection H2 as <- <-.
  unfold ret in H; injection H as <-. destruct x as [t k].
  apply backup_loop_counts in H1 as (nb & nz & Hb & Hz & Hf & Et & Ek & Hs).
  unfold iter_addresses in Hs. cbn [set_backup_created backup_pages zero_pages
                                    free_frames backup_created].
  rewrite Hb, Hz.
  replace (length (backup_pages s) + nb - length (backup_pages s))%nat with nb by lia.
  replace (length (zero_pages s) + nz - length (zero_pages s))%nat with nz by lia.
  split; [reflexivity|]. split; [lia|]. split; [lia|]. split; [|lia].
  rewrite Nat2Z.inj_add. unfold PAGE_SIZE in *. lia.
Qed.

Lemma create_full_backup_counts_witness :
  let s0 := st_init last_byte_mem [(0x1000, Regular); (0x200000, Huge)] [] in
  PAGE_SIZE *
    Z.of_nat ((length (backup_pages (snd (create_full_backup env_ok s0))) -
               length (backup_pages s0)) +
              (length (zero_pages (snd (create_full_backup env_ok s0))) -
               length (zero_pages s0))) =
    total_bytes (pages_to_backup s0).
Proof.
  intro s0.
  refine (proj1 (proj2 (proj2 (proj2 (create_full_backup_counts env_ok s0
                                         (snd (create_full_backup env_ok s0)) _ _))))).
  - reflexivity.
  - apply pair_fst. vm_compute. reflexivity.
Defined.

(** With the flag false and no registered entry, [create_full_backup]
    succeeds, copies nothing, and only sets the flag. *)
Theorem create_full_backup_empty env s :
  backup_created s = false -> pages_to_backup s = [] ->
  create_full_backup env s = (Ok tt, set_backup_created true s).
Proof.
  intros Hc He. unfold create_full_backup, bind, get, modify, ret.
  rewrite Hc. unfold iter_addresses. rewrite He. reflexivity.
Qed.

Lemma create_full_backup_empty_witness :
  create_full_backup env_fault_2000 (st_init aa_mem [] [(0x2000, Regular)]) =
  (Ok tt, set_backup_created true (st_init aa_mem [] [(0x2000, Regular)])).
Proof. apply create_full_backup_empty; reflexivity. Defined.

(** Whatever its outcome, [restore_pages_from_backup] keeps the snapshot
    (both record lists and the flag), both address sets and the free frames:
    it writes guest memory only. *)
Theorem restore_pages_from_backup_keeps_store env s :
  let s' := snd (restore_pages_from_backup env s) in
  backup_pages s' = backup_pages s /\ zero_pages s' = zero_pages s /\
  backup_created s' = backup_created s /\ pages_to_backup s' = pages_to_backup s /\
  pages_to_clear s' = pages_to_clear s /\ free_frames s' = free_frames s.
Proof.
  intro s'.
  assert (K : untouched s s').
  { subst s'. rewrite restore_pages_from_backup_eq.
    destruct (restore_loop env (backup_pages s) s) as [o4 s4] eqn:E1.
    pose proof (restore_loop_untouched _ _ _ _ _ E1) as U1.
    destruct (zero_loop env (zero_pages s4) s4) as [o5 s5] eqn:E2.
    pose proof (zero_loop_untouched _ _ _ _ _ E2) as U2.
    destruct o4, o5; cbn [snd]; try exact U1; eapply untouched_trans; eauto. }
  destruct K as ((Hb & Hz & Hcl & Hbk & Hc) & Hf). repeat split; assumption.
Qed.

(** Restoring twice restores once: after a successful
    [restore_pages_from_backup], a second one succeeds as well and leaves
    every byte of guest memory as the first left it. *)
Theorem restore_pages_from_backup_idempotent env s s1 :
  restore_pages_from_backup env s = (Ok tt, s1) ->
  fst (restore_pages_from_backup env s1) = Ok tt /\
  forall a, mem (snd (restore_pages_from_backup env s1)) a = mem s1 a.
Proof.
  intro H. rewrite restore_pages_from_backup_eq in H.
  destruct (restore_loop env (backup_pages s) s) as [[u|e|] s4] eqn:E1; try discriminate.
  destruct u.
  destruct (zero_loop env (zero_pages s4) s4) as [[u|e|] s5] eqn:E2; try discriminate.
  destruct u. injection H as <-.
  pose proof (restore_loop_untouched _ _ _ _ _ E1) as ((Hb4 & Hz4 & _) & _).
  pose proof (zero_loop_untouched _ _ _ _ _ E2) as ((Hb5 & Hz5 & _) & _).
  rewrite restore_pages_from_backup_eq. rewrite Hb5, Hb4.
  pose proof (restore_loop_fst env (backup_pages s) s s5) as F1. rewrite E1 in F1.
  destruct (restore_loop env (backup_pages s) s5) as [o6 s6] eqn:E3.
  cbn [fst] in F1. subst o6.
  pose proof (restore_loop_untouched _ _ _ _ _ E3) as ((_ & Hz6 & _) & _).
  rewrite Hz6, Hz5.
  pose proof (zero_loop_fst env (zero_pages s4) s4 s6) as F2. rewrite E2 in F2.
  destruct (zero_loop env (zero_pages s4) s6) as [o7 s7] eqn:E4.
  cbn [fst] in F2. subst o7. cbn [fst snd]. split; [reflexivity|].
  intro a.
  pose proof (restore_loop_Ok_cover _ _ _ _ E1 None (mem s a) a eq_refl) as C1.
  pose proof (zero_loop_Ok_cover _ _ _ _ E2 None (mem s4 a) a eq_refl) as C2.
  pose proof (restore_loop_Ok_cover _ _ _ _ E3 None (mem s5 a) a eq_refl) as C3.
  pose proof (zero_loop_Ok_cover _ _ _ _ E4 None (mem s6 a) a eq_refl) as C4.
  rewrite C4. destruct (zcover env (zero_pages s4) a None) as [v|]; cbn [ov] in C2 |- *.
  - symmetry. exact C2.
  - rewrite C3. destruct (rcover env (backup_pages s) a None) as [v|]; cbn [ov] in C1 |- *.
    + congruence.
    + reflexivity.
Qed.

Lemma restore_pages_from_backup_idempotent_witness :
  let s0 := snd (create_full_backup env_ok (st_init aa_mem [(0x1000, Regular)] [])) in
  fst (restore_pages_from_backup env_ok (snd (restore_pages_from_backup env_ok s0))) = Ok tt.
Proof.
  intro s0.
  refine (proj1 (restore_pages_from_backup_idempotent env_ok s0
                   (snd (restore_pages_from_backup env_ok s0)) _)).
  apply pair_fst. vm_compute. reflexivity.
Defined.

(** With no record of either kind, [restore_pages_from_backup] succeeds and
    changes nothing, whatever [PAGES_TO_CLEAR] holds. *)
Theorem restore_pages_from_backup_empty env s :
  backup_pages s = [] -> zero_pages s = [] ->
  restore_pages_from_backup env s = (Ok tt, s).
Proof.
  intros Hb Hz. rewrite restore_pages_from_backup_eq, Hb. cbn [restore_loop].
  unfold ret. rewrite Hz. reflexivity.
Qed.

Lemma restore_pages_from_backup_empty_witness :
  restore_pages_from_backup env_ok (st_init aa_mem [] [(0x1000, Regular)]) =
  (Ok tt, st_init aa_mem [] [(0x1000, Regular)]).
Proof. apply restore_pages_from_backup_empty; reflexivity. Defined.

(** Whatever its outcome, [enable_copy_on_write] changes neither guest
    memory, nor the snapshot, nor the address sets, nor the free frames. *)
Theorem enable_copy_on_write_keeps_state env s :
  let s' := snd (enable_copy_on_write env s) in
  mem s' = mem s /\ backup_pages s' = backup_pages s /\ zero_pages s' = zero_pages s /\
  backup_created s' = backup_created s /\ pages_to_backup s' = pages_to_backup s /\
  pages_to_clear s' = pages_to_clear s /\ free_frames s' = free_frames s.
Proof.
  intro s'.
  assert (K : only_events s s').
  { subst s'. destruct (enable_copy_on_write env s) as [o s1] eqn:E. cbn [snd].
    revert E. unfold enable_copy_on_write.
    apply bind_inv; [apply only_events_trans|intros o1 s2 Hg; injection Hg as _ <-;
                                               apply only_events_refl|].
    intros s0 s2 Hg o2 s3 H. injection Hg as <- <-. revert H.
    apply bind_inv; [apply only_events_trans|intros o1 s2; apply cow_loop_only_events|].
    intros u s4 _ o4 s5 H. unfold ret in H; injection H as _ <-. apply only_events_refl. }
  destruct K as (((Hb & Hz & Hcl & Hbk & Hc) & Hf) & Hm). repeat split; assumption.
Qed.

(** When [enable_copy_on_write] fails, it stops at the first entry (in
    ascending order) whose [set_read_only] fails: the entries before it
    are write-protected, in order, and none after it; the error is the
    mapping error of that entry's guard or the RMP error of that entry. *)
Theorem enable_copy_on_write_Err env s r s' :
  enable_copy_on_write env s = (Err r, s') ->
  exists pre x post,
    iter_addresses (pages_to_backup s) = pre ++ x :: post /\
    rmps (events s') = rmps (events s) ++ pre /\
    ((r = FatalError Mapping /\
      map_fails env (PageSize_eqb (snd x) Huge) (fst x)
        (pa_add (fst x) (page_size_bytes (snd x))) = true) \/
     (r = FatalError Rmp /\ rmp_fails env (fst x) (snd x) = true)).
Proof.
  unfold enable_copy_on_write. intro H.
  apply bind_Err in H as [H | (s0 & s1 & H1 & H)]; [discriminate|].
  unfold get in H1; injection H1 as <- <-.
  apply bind_Err in H as [H | (u & s2 & H1 & H)]; [|discriminate].
  apply cow_loop_Err in H as (pre & x & post & s1 & e & Hl & Hr & Hx & ->).
  exists pre, x, post. split; [exact Hl|].
  rewrite set_read_only_eq in Hx.
  destruct (fst x mod page_size_bytes (snd x) =? 0); [|discriminate]. cbv zeta in Hx.
  destruct (map_fails _ _ _ _) eqn:Em.
  - injection Hx as <- <-. split; [exact Hr|]. left. auto.
  - destruct (rmp_fails env (fst x) (snd x)) eqn:Er; [|discriminate].
    injection Hx as <- <-. split; [|right; auto].
    cbn [events add_event]. rewrite rmps_app, Hr. cbn. rewrite app_nil_r. reflexivity.
Qed.

Lemma enable_copy_on_write_Err_witness :
  let s0 := st_init zero_mem [(0x1000, Regular); (0x2000, Regular); (0x3000, Regular)] [] in
  let s1 := snd (enable_copy_on_write env_rmp_2000 s0) in
  exists pre x post,
    iter_addresses (pages_to_backup s0) = pre ++ x :: post /\
    rmps (events s1) = rmps (events s0) ++ pre /\
    ((FatalError Rmp = FatalError Mapping /\
      map_fails env_rmp_2000 (PageSize_eqb (snd x) Huge) (fst x)
        (pa_add (fst x) (page_size_bytes (snd x))) = true) \/
     (FatalError Rmp = FatalError Rmp /\ rmp_fails env_rmp_2000 (fst x) (snd x) = true)).
Proof.
  intros s0 s1. apply enable_copy_on_write_Err.
  apply pair_fst. vm_compute. reflexivity.
Defined.

(** ** kernel/src/platform/snp.rs *)

(** [get_page_encryption_masks] panics exactly when the CPUID table lacks
    leaf 0x80000008, or, without vTOM, lacks leaf 0x8000001f; otherwise it
    returns masks. *)
Theorem get_page_encryption_masks_panics env vtom :
  get_page_encryption_masks env vtom = Panic <->
  cpuid_table env 0x80000008 = None \/
  (vtom_enabled env = false /\ cpuid_table env 0x8000001f = None).
Proof.
  unfold get_page_encryption_masks.
  destruct (cpuid_table env 0x80000008); [|tauto].
  destruct (vtom_enabled env); [split; [discriminate|intros [H|[H _]]; discriminate]|].
  destruct (cpuid_table env 0x8000001f); [|tauto].
  split; [discriminate|intros [H|[_ H]]; discriminate].
Qed.

(** With vTOM, the private mask is 0, the shared mask is [vtom], and the
    address-mask width is the number of leading zero bits of [vtom] in a
    64-bit word: 64 for [vtom = 0], and otherwise the [w] with
    [2^(63-w) <= vtom < 2^(64-w)]. The physical address sizes are [eax] of
    leaf 0x80000008. *)
Theorem get_page_encryption_masks_vtom env vtom m :
  vtom_enabled env = true -> get_page_encryption_masks env vtom = Ok m ->
  private_pte_mask m = 0 /\ shared_pte_mask m = vtom /\
  (exists res, cpuid_table env 0x80000008 = Some res /\ phys_addr_sizes m = eax res) /\
  (vtom = 0 -> addr_mask_width m = 64) /\
  (0 < vtom < WORD ->
     0 <= addr_mask_width m <= 63 /\
     2 ^ (63 - addr_mask_width m) <= vtom < 2 ^ (64 - addr_mask_width m)).
Proof.
  intros Hv H. unfold get_page_encryption_masks in H.
  destruct (cpuid_table env 0x80000008) as [res|] eqn:Ec; [|discriminate].
  rewrite Hv in H. injection H as <-.
  cbn [private_pte_mask shared_pte_mask addr_mask_width phys_addr_sizes].
  split; [reflexivity|]. split; [reflexivity|]. split; [eauto|]. split.
  - intros ->. reflexivity.
  - intro Hb. unfold leading_zeros.
    rewrite lz_from_log2 by (unfold WORD in Hb; exact Hb).
    change (Z.of_nat 64) with 64.
    assert (Hl : Z.log2 vtom < 64) by (apply Z.log2_lt_pow2; unfold WORD in Hb; lia).
    pose proof (Z.log2_nonneg vtom).
    pose proof (Z.log2_spec vtom ltac:(lia)) as [H1 H2].
    replace (63 - (64 - 1 - Z.log2 vtom)) with (Z.log2 vtom) by lia.
    replace (64 - (64 - 1 - Z.log2 vtom)) with (Z.succ (Z.log2 vtom)) by lia.
    split; [lia|]. split; assumption.
Qed.

Lemma get_page_encryption_masks_vtom_witness :
  0 <= addr_mask_width {| private_pte_mask := 0; shared_pte_mask := 0x400000000000;
                          addr_mask_width := 17; phys_addr_sizes := 0x3030 |} <= 63.
Proof.
  refine (proj1 (proj2 (proj2 (proj2 (proj2
            (get_page_encryption_masks_vtom snp_env_vtom 0x400000000000 _ _ _)))) _)).
  - reflexivity.
  - vm_compute. reflexivity.
  - unfold WORD. lia.
Defined.

(** Without vTOM, the address-mask width is the C-bit position, bits 0..5
    of [ebx] of leaf 0x8000001f (so at most 63), the private mask is the
    single bit [1 << c_bit], which fits in 64 bits, the shared mask is 0,
    and the physical address sizes are [eax] of that same leaf 0x8000001f
    (the shadowing [res]), not of leaf 0x80000008. *)
Theorem get_page_encryption_masks_cbit env vtom m :
  vtom_enabled env = false -> get_page_encryption_masks env vtom = Ok m ->
  exists res, cpuid_table env 0x8000001f = Some res /\
    addr_mask_width m = ebx res mod 64 /\ 0 <= addr_mask_width m <= 63 /\
    private_pte_mask m = 2 ^ addr_mask_width m /\ private_pte_mask m < WORD /\
    shared_pte_mask m = 0 /\ phys_addr_sizes m = eax res.
Proof.
  intros Hv H. unfold get_page_encryption_masks in H.
  destruct (cpuid_table env 0x80000008) as [res|]; [|discriminate].
  rewrite Hv in H.
  destruct (cpuid_table env 0x8000001f) as [res'|]; [|discriminate].
  injection H as <-. exists res'.
  cbn [private_pte_mask shared_pte_mask addr_mask_width phys_addr_sizes].
  assert (Hc : Z.land (ebx res') 0x3f = ebx res' mod 64)
    by (change 0x3f with (2 ^ 6 - 1); apply land_pow2_mod; lia).
  rewrite Hc. pose proof (Z.mod_pos_bound (ebx res') 64 ltac:(lia)).
  rewrite Z.shiftl_1_l.
  split; [reflexivity|]. split; [reflexivity|]. split; [lia|].
  split; [reflexivity|]. split; [|split; reflexivity].
  unfold WORD. apply Z.pow_lt_mono_r; lia.
Qed.

Lemma get_page_encryption_masks_cbit_witness :
  exists res, cpuid_table snp_env_cbit 0x8000001f = Some res /\
    phys_addr_sizes {| private_pte_mask := 2 ^ 47; shared_pte_mask := 0;
                       addr_mask_width := 47; phys_addr_sizes := 0x1b |} = eax res.
Proof.
  destruct (get_page_encryption_masks_cbit snp_env_cbit 0
              {| private_pte_mask := 2 ^ 47; shared_pte_mask := 0;
                 addr_mask_width := 47; phys_addr_sizes := 0x1b |})
    as (res & H1 & _ & _ & _ & _ & _ & H2).
  - reflexivity.
  - vm_compute. reflexivity.
  - exists res. split; assumption.
Defined.

(** ** src/stage2.rs *)

(** [map_memory(paddr, pend, vaddr)] maps 4 KiB pages one after the other,
    page [i] from [paddr + 4096 i] at [vaddr + 4096 i] (the virtual address
    wrapping at 2^64), over [n] pages: the pages needed to cover
    [paddr .. pend], and at least one, since the loop tests [pend] only after
    a page is mapped. It stops at the first [map_4k] that fails, with [Err]
    and the pages mapped before it; otherwise it returns [Ok] with all [n]
    pages mapped. *)
Theorem map_memory_pages env fuel paddr pend vaddr j :
  let n := Z.to_nat (Z.max 1 ((pend - paddr + 4095) / 4096)) in
  (n <= fuel)%nat -> 0 <= paddr -> paddr + 4096 * Z.of_nat n < WORD ->
  0 <= vaddr < WORD -> (j <= n)%nat ->
  (forall i, (i < j)%nat ->
     map_4k_fails env (pa_add vaddr (4096 * Z.of_nat i)) (paddr + 4096 * Z.of_nat i) = false) ->
  ((j < n)%nat ->
     map_4k_fails env (pa_add vaddr (4096 * Z.of_nat j)) (paddr + 4096 * Z.of_nat j) = true) ->
  map_memory env fuel paddr pend vaddr =
  Some (if (j <? n)%nat then Err tt else Ok tt,
        map (fun i => Map4k (pa_add vaddr (4096 * Z.of_nat i)) (paddr + 4096 * Z.of_nat i))
            (seq 0 j)).
Proof.
  intros n Hf Hp Hw Hv Hj Hok Hfail.
  set (c := (pend - paddr + 4095) / 4096) in n.
  assert (Hn : Z.of_nat n = Z.max 1 c) by (unfold n; rewrite Z2Nat.id; lia).
  pose proof (Z.div_mod (pend - paddr + 4095) 4096 ltac:(lia)) as Hd.
  pose proof (Z.mod_pos_bound (pend - paddr + 4095) 4096 ltac:(lia)) as Hm.
  fold c in Hd.
  apply (map_memory_pages_gen env fuel paddr pend vaddr n j); try assumption.
  - lia.
  - intros i Hi. lia.
  - lia.
Qed.

Lemma map_memory_pages_witness :
  map_memory s2_env_ok 4 0x1000 0x3000 0x1000 =
  Some (Ok tt, [Map4k 0x1000 0x1000; Map4k 0x2000 0x2000]).
Proof.
  rewrite (map_memory_pages s2_env_ok 4 0x1000 0x3000 0x1000 2).
  - reflexivity.
  - vm_compute. lia.
  - lia.
  - vm_compute. reflexivity.
  - unfold WORD. lia.
  - vm_compute. lia.
  - intros i _. reflexivity.
  - vm_compute. lia.
Defined.

(** [validate_kernel_region(r)] validates the pages of [r] one after the
    other over [n] pages (the pages needed to cover [start .. end], at least
    one): for page [i], [validate_page_msr] on [start + 4096 i], then
    [pvalidate] on [KERNEL_VIRT_ADDR + 4096 i]. It stops at the first page
    where either call fails, with [Err]; a page whose [pvalidate] failed has
    still been validated through the MSR. If no call fails it returns [Ok]
    with all [n] pages validated. *)
Theorem validate_kernel_region_pages env fuel r j :
  let n := Z.to_nat (Z.max 1 ((end_ r - start r + 4095) / 4096)) in
  let pg := fun i => [ValidatePageMsr (start r + 4096 * Z.of_nat i);
                      PValidate (pa_add KERNEL_VIRT_ADDR (4096 * Z.of_nat i))] in
  (n <= fuel)%nat -> 0 <= start r -> start r + 4096 * Z.of_nat n < WORD -> (j <= n)%nat ->
  (forall i, (i < j)%nat ->
     validate_page_msr_fails env (start r + 4096 * Z.of_nat i) = false /\
     pvalidate_fails env (pa_add KERNEL_VIRT_ADDR (4096 * Z.of_nat i)) = false) ->
  ((j < n)%nat ->
     validate_page_msr_fails env (start r + 4096 * Z.of_nat j) = true \/
     pvalidate_fails env (pa_add KERNEL_VIRT_ADDR (4096 * Z.of_nat j)) = true) ->
  validate_kernel_region env fuel r =
  if (j <? n)%nat then
    Some (Err tt, flat_map pg (seq 0 j) ++
                  (if validate_page_msr_fails env (start r + 4096 * Z.of_nat j) then []
                   else [ValidatePageMsr (start r + 4096 * Z.of_nat j)]))
  else Some (Ok tt, flat_map pg (seq 0 n)).
Proof.
  intros n pg Hf Hp Hw Hj Hok Hfail.
  set (c := (end_ r - start r + 4095) / 4096) in n.
  assert (Hn : Z.of_nat n = Z.max 1 c) by (unfold n; rewrite Z2Nat.id; lia).
  pose proof (Z.div_mod (end_ r - start r + 4095) 4096 ltac:(lia)) as Hd.
  pose proof (Z.mod_pos_bound (end_ r - start r + 4095) 4096 ltac:(lia)) as Hm.
  fold c in Hd.
  assert (Hk : 0 <= KERNEL_VIRT_ADDR < WORD) by (unfold KERNEL_VIRT_ADDR, WORD; lia).
  unfold validate_kernel_region, pg.
  destruct (j <? n)%nat eqn:Ej.
  - apply Nat.ltb_lt in Ej.
    apply (validate_loop_fail_gen env fuel KERNEL_VIRT_ADDR (start r) (end_ r) n j).
    all: first [assumption | lia | (intros i Hi; lia) | (apply Hfail; exact Ej)].
  - apply Nat.ltb_ge in Ej. assert (j = n) by lia. subst j.
    apply (validate_loop_pages env fuel KERNEL_VIRT_ADDR (start r) (end_ r) n).
    all: first [assumption | lia | (intros i Hi; lia)].
Qed.

Lemma validate_kernel_region_pages_witness :
  validate_kernel_region s2_env_failing 4 {| start := 0x100000; end_ := 0x102000 |} =
  Some (Err tt, [ValidatePageMsr 0x100000; PValidate KERNEL_VIRT_ADDR;
                 ValidatePageMsr 0x101000]).
Proof.
  rewrite (validate_kernel_region_pages s2_env_failing 4
             {| start := 0x100000; end_ := 0x102000 |} 1).
  - reflexivity.
  - vm_compute. lia.
  - cbn. lia.
  - vm_compute. reflexivity.
  - vm_compute. lia.
  - intros i Hi. assert (i = O) by lia. subst i. split; reflexivity.
  - intros _. right. reflexivity.
Defined.

(** [stage2_main] panics exactly when SEV-ES is not available or the
    firmware names no kernel region. *)
Theorem stage2_main_panics env fuel kernel_start kernel_end :
  fst (stage2_main env fuel kernel_start kernel_end) = Panicked <->
  sev_es_enabled env = false \/ fw_kernel_region env = None.
Proof.
  unfold stage2_main.
  destruct (sev_es_enabled env); cbn [negb]; [|cbn; tauto].
  destruct (fw_kernel_region env) as [r|]; [|cbn; tauto].
  split; [|intros [H|H]; discriminate].
  destruct (map_kernel_image _ _ _ _) as [[o1 tr1]|]; [|discriminate].
  destruct (map_kernel_region _ _ _) as [[o2 tr2]|]; [|discriminate].
  destruct (validate_kernel_region _ _ _) as [[o3 tr3]|]; [|discriminate].
  discriminate.
Qed.

(** Once SEV-ES is available and the kernel region is known, [stage2_main]
    launches the kernel whatever the three loops returned: a failed
    mapping or validation only selects a message. A failed GHCB setup
    only executes one [hlt]. The registers loaded are the kernel start
    ([rsi]), the virtual address and the entry read from the kernel
    metadata at [kernel_start] ([rdi], [rax]), the image size
    [kernel_end - kernel_start] ([rcx]) and the offset of the virtual
    address from the kernel start ([rdx]), both differences taken modulo
    2^64. *)
Theorem stage2_main_launches env fuel kernel_start kernel_end r o1 tr1 o2 tr2 o3 tr3 :
  sev_es_enabled env = true -> fw_kernel_region env = Some r ->
  map_kernel_image env fuel kernel_start kernel_end = Some (o1, tr1) ->
  map_kernel_region env fuel r = Some (o2, tr2) ->
  validate_kernel_region env fuel r = Some (o3, tr3) ->
  stage2_main env fuel kernel_start kernel_end =
  (Launched kernel_start (read_u64 env kernel_start) ((kernel_end - kernel_start) mod WORD)
            (read_u64 env (kernel_start + 8))
            ((read_u64 env kernel_start - kernel_start) mod WORD),
   (if ghcb_init_fails env then [Hlt] else []) ++ tr1 ++ tr2 ++ tr3).
Proof.
  intros Hs Hr H1 H2 H3.
  unfold stage2_main. rewrite Hs, Hr, H1, H2, H3. cbn [negb].
  unfold copy_and_launch_kernel, pa_sub. reflexivity.
Qed.

Lemma stage2_main_launches_witness :
  stage2_main s2_env_failing 4 0x10000 0x12000 =
  (Launched 0x10000 KERNEL_VIRT_ADDR 0x2000 0xffffff8000001000 (KERNEL_VIRT_ADDR - 0x10000),
   [Hlt; ValidatePageMsr 0x100000; PValidate KERNEL_VIRT_ADDR; ValidatePageMsr 0x101000]).
Proof.
  rewrite (stage2_main_launches s2_env_failing 4 0x10000 0x12000
             {| start := 0x100000; end_ := 0x102000 |} (Err tt) [] (Err tt) [] (Err tt)
             [ValidatePageMsr 0x100000; PValidate KERNEL_VIRT_ADDR; ValidatePageMsr 0x101000]).
  - vm_compute. reflexivity.
  - reflexivity.
  - reflexivity.
  - vm_compute. reflexivity.
  - vm_compute. reflexivity.
  - vm_compute. reflexivity.
Defined.

(** The only error [restore_pages_from_backup] returns is the mapping error
    of a guard ([FatalError Mapping]): restoring or zeroing a writable page
    fails only when its mapping cannot be created. *)
Theorem restore_pages_from_backup_Err env s e s' :
  restore_pages_from_backup env s = (Err e, s') -> e = FatalError Mapping.
Proof.
  rewrite restore_pages_from_backup_eq.
  destruct (restore_loop env (backup_pages s) s) as [[u|e1|] s4] eqn:E1;
    [|intro H; injection H as <- _; eapply restore_loop_Err; exact E1|discriminate].
  destruct (zero_loop env (zero_pages s4) s4) as [[u'|e2|] s5] eqn:E2;
    [discriminate|intro H; injection H as <- _; eapply zero_loop_Err; exact E2|discriminate].
Qed.

Lemma restore_pages_from_backup_Err_witness :
  FatalError Mapping = FatalError Mapping.
Proof.
  pose (env := {| map_fails := fun _ _ _ => true; read_fault := fun _ => false;
                  writable_phys_addr := fun _ => true; rmp_fails := fun _ _ => false |}).
  pose (s0 := set_zero_pages [0x1000] (st_init zero_mem [] [])).
  apply (restore_pages_from_backup_Err env s0 _ (snd (restore_pages_from_backup env s0))).
  apply pair_fst. vm_compute. reflexivity.
Defined.
